(** * Lollyzz digital menu: filter pipeline, availability store, owner login

    A shallow embedding of the logic of [src/App.tsx] and the proofs of the
    properties its specification states.

    Conventions of the embedding.
    - A JavaScript string is a sequence of UTF-16 code units.  The model
      keeps the code units below 256, one [ascii] each (every string of the
      catalog, of the allow-list and of the storage keys is plain ASCII).
      Character classes and case mapping are the ECMAScript ones restricted
      to that range.
    - A JavaScript object used as a dictionary is a [gmap] of its own
      entries, keyed by strings; a [Set] of strings is a [gset].  A lookup
      that finds no own entry finds an inherited property or nothing, and
      neither is ever [false].  An assignment stores an own entry, except
      under the key [__proto__], where it reaches the inherited setter
      unless the object has an own entry for that key.
    - React state hooks are explicit values passed to the functions that
      read them; a state updater is a function from the previous value to
      the next one.
    - Calls that may throw return an [outcome]; [try_catch] is the
      [try { ... } catch { ... }] of the source. *)

From Stdlib Require Import Ascii String Sorted.
From Corelib Require Import PrimFloat.
From stdpp Require Import gmap strings list fin_maps pretty.

Local Open Scope string_scope.

(** ** JavaScript string primitives *)

Module Js.

Definition code (c : ascii) : N := N_of_ascii c.

(** The double quote, written by its code so that no literal contains it. *)
Definition dquote : ascii := ascii_of_N 34.

(** [\d] of a regular expression without the [u] flag: [0-9]. *)
Definition is_digit (c : ascii) : bool :=
  (48 <=? code c)%N && (code c <=? 57)%N.

(** [\s] of a regular expression, which is also what [trim] strips:
    TAB, LF, VT, FF, CR, SPACE and NO-BREAK SPACE are the members below
    code 256. *)
Definition is_space (c : ascii) : bool :=
  let n := code c in
  ((9 <=? n)%N && (n <=? 13)%N) || (n =? 32)%N || (n =? 160)%N.

(** [String.prototype.toLowerCase], one code unit at a time: A-Z and the
    Latin-1 capitals (all of 192..222 but the multiplication sign 215). *)
Definition lower_char (c : ascii) : ascii :=
  let n := code c in
  if ((65 <=? n)%N && (n <=? 90)%N)
     || ((192 <=? n)%N && (n <=? 222)%N && negb (n =? 215)%N)
  then ascii_of_N (n + 32) else c.

Fixpoint toLowerCase (s : string) : string :=
  match s with
  | EmptyString => EmptyString
  | String c s' => String (lower_char c) (toLowerCase s')
  end.

(** Canonicalisation of the [i] flag (no [u] flag): a code unit is
    compared through its upper case, and a code unit of 128 or more never
    canonicalises to an ASCII one, so against ASCII letters only a-z
    fold. *)
Definition canonicalize (c : ascii) : ascii :=
  let n := code c in
  if (97 <=? n)%N && (n <=? 122)%N then ascii_of_N (n - 32) else c.

Fixpoint canonicalize_all (s : string) : string :=
  match s with
  | EmptyString => EmptyString
  | String c s' => String (canonicalize c) (canonicalize_all s')
  end.

(** [/^pat$/i.test(s)] for a pattern [pat] of literal ASCII letters. *)
Definition test_whole_ci (pat s : string) : bool :=
  String.eqb (canonicalize_all s) (canonicalize_all pat).

Fixpoint trimStart (s : string) : string :=
  match s with
  | EmptyString => EmptyString
  | String c s' => if is_space c then trimStart s' else s
  end.

Fixpoint trimEnd (s : string) : string :=
  match s with
  | EmptyString => EmptyString
  | String c s' =>
      match trimEnd s' with
      | EmptyString => if is_space c then EmptyString else String c EmptyString
      | r => String c r
      end
  end.

(** [String.prototype.trim]. *)
Definition trim (s : string) : string := trimEnd (trimStart s).

(** [s.startsWith(p)]. *)
Definition startsWith (s p : string) : bool := String.prefix p s.

(** [s.includes(q)]: [q] occurs in [s] at some position. *)
Fixpoint includes (s q : string) : bool :=
  String.prefix q s
  || match s with
     | EmptyString => false
     | String _ s' => includes s' q
     end.

(** [s.slice(n)] for [0 <= n]. *)
Fixpoint slice (s : string) (n : nat) : string :=
  match n, s with
  | O, _ => s
  | S _, EmptyString => EmptyString
  | S n', String _ s' => slice s' n'
  end.

(** [s.replace(re, empty)] with the global pattern of one or more
    non-digits: every maximal run of non-digits is deleted. *)
Fixpoint remove_non_digits (s : string) : string :=
  match s with
  | EmptyString => EmptyString
  | String c s' =>
      if is_digit c then String c (remove_non_digits s')
      else remove_non_digits s'
  end.

(** [xs.join(sep)]. *)
Definition join (sep : string) (xs : list string) : string :=
  String.concat sep xs.

(** The longest prefix of digits, and what follows it ([\d*], greedy). *)
Fixpoint span_digits (s : string) : string * string :=
  match s with
  | EmptyString => (EmptyString, EmptyString)
  | String c s' =>
      if is_digit c
      then let '(ds, rest) := span_digits s' in (String c ds, rest)
      else (EmptyString, s)
  end.

(** Falsy strings: only the empty one. *)
Definition truthy_string (s : string) : bool := negb (String.eqb s EmptyString).

End Js.

(** ** Catalog types *)

Module Variant.
Record t := mk { id : string; name : string; price : Z }.
End Variant.
Abbreviation Variant := Variant.t.

Module MenuItem.
Record t := mk {
  id : string;
  name : string;
  isVeg : bool;
  variants : list Variant;
}.
End MenuItem.
Abbreviation MenuItem := MenuItem.t.

Module MenuSection.
Record t := mk {
  id : string;
  title : string;
  subtitle : option string;
  items : list MenuItem;
}.

(** [{ ...s, items }]. *)
Definition with_items (s : t) (its : list MenuItem) : t :=
  mk (id s) (title s) (subtitle s) its.
End MenuSection.
Abbreviation MenuSection := MenuSection.t.

Inductive FoodFilter := ALL | VEG | NONVEG.

Definition OWNER_MOBILES : list string :=
  ["9110162059"; "9170820279"; "8298357035"].
Definition OWNER_SESSION_KEY : string := "lollyzz_owner_session_v1".
Definition AVAILABILITY_KEY : string := "lollyzz_availability_v1".

(** ** Label and phone normalisation *)

(** [n.match(re)] for the pattern of the source: optional white space, one
    or more digits (captured), optional white space, one double quote,
    optional white space, end of input.  The result is the capture group
    on a match.  The character classes are disjoint, so the greedy reading
    is the only one. *)
Definition match_inches (n : string) : option string :=
  let '(ds, rest) := Js.span_digits (Js.trimStart n) in
  match ds with
  | EmptyString => None
  | _ =>
      match Js.trimStart rest with
      | String c tl =>
          if Ascii.eqb c Js.dquote
          then match Js.trimStart tl with
               | EmptyString => Some ds
               | _ => None
               end
          else None
      | EmptyString => None
      end
  end.

Definition normalizeVariantName (name : string) : string :=
  let n := Js.trim name in
  match match_inches n with
  | Some inches => inches +:+ " inches"
  | None =>
      if Js.test_whole_ci "reg" n then "Regular"
      else if Js.test_whole_ci "med" n then "Medium"
      else if Js.test_whole_ci "large" n then "Large"
      else n
  end.

Definition normalizeIndianMobile (input : string) : option string :=
  let digits := Js.remove_non_digits input in
  if (String.length digits =? 10)%nat then Some digits
  else if (String.length digits =? 12)%nat && Js.startsWith digits "91"
       then Some (Js.slice digits 2)
  else if (String.length digits =? 11)%nat && Js.startsWith digits "0"
       then Some (Js.slice digits 1)
  else None.

(** ** JSON values and fallible host calls *)

#[warnings="-register-all"]
Inductive json : Type :=
| JNull
| JBool (b : bool)
| JNum (f : float)
| JStr (s : string)
| JArr (l : list json)
| JObj (m : gmap string json).

(** The result of a call that may throw. *)
Inductive outcome (A : Type) : Type :=
| Returns (a : A)
| Throws.
Arguments Returns {A} a.
Arguments Throws {A}.

#[global] Instance outcome_ret : MRet outcome := @Returns.
#[global] Instance outcome_bind : MBind outcome :=
  fun A B f m => match m with Returns a => f a | Throws => Throws end.

(** [try { body } catch { handler }]. *)
Definition try_catch {A : Type} (body : outcome A) (handler : A) : A :=
  match body with Returns a => a | Throws => handler end.

(** [typeof v] for a value that [JSON.parse] can return. *)
Definition typeof (v : json) : string :=
  match v with
  | JNull => "object"
  | JBool _ => "boolean"
  | JNum _ => "number"
  | JStr _ => "string"
  | JArr _ => "object"
  | JObj _ => "object"
  end.

(** ToBoolean: [null], [false], zero, NaN and the empty string are falsy. *)
Definition truthy (v : json) : bool :=
  match v with
  | JNull => false
  | JBool b => b
  | JNum f => negb (PrimFloat.eqb f 0%float) && PrimFloat.eqb f f
  | JStr s => Js.truthy_string s
  | JArr _ => true
  | JObj _ => true
  end.

(** The own indexed or named properties that a lookup [v[key]] can find:
    the entries of an object, the elements of an array under their decimal
    indices. *)
Definition ownProperties (v : json) : gmap string json :=
  match v with
  | JObj m => m
  | JArr l => list_to_map (imap (fun i x => (pretty i, x)) l)
  | _ => ∅
  end.

(** [localStorage]: its entries, and whether the browser lets the page
    use it (every call throws when it does not). *)
Record Storage := { entries : gmap string string; accessible : bool }.

Definition getItem (ls : Storage) (key : string) : outcome (option string) :=
  if accessible ls then Returns (entries ls !! key) else Throws.

Definition setItem (ls : Storage) (key value : string) : outcome Storage :=
  if accessible ls
  then Returns {| entries := <[key := value]> (entries ls);
                  accessible := accessible ls |}
  else Throws.

(** ** Availability store *)

(** [availability[itemId] !== false]. *)
Definition isAvailable (availability : gmap string json) (itemId : string)
  : bool :=
  match availability !! itemId with
  | Some (JBool false) => false
  | _ => true
  end.

(** [o[key] = false] on an object with the entries [o]: the value becomes
    the own entry of [key].  Under the key [__proto__], an object with no
    own entry for it hands the value to the setter it inherits, which
    ignores a value that is not an object, so nothing is stored. *)
Definition assignFalse (key : string) (o : gmap string json)
  : gmap string json :=
  if String.eqb key "__proto__" then
    match o !! key with
    | Some _ => <[key := JBool false]> o
    | None => o
    end
  else <[key := JBool false]> o.

(** The updater that [setItemAvailable] hands to [setAvailability]. *)
Definition setItemAvailable (itemId : string) (nextAvailable : bool)
    (prev : gmap string json) : gmap string json :=
  let next := prev in
  if nextAvailable then delete itemId next
  else assignFalse itemId next.

(** The handler of the reset button: [setAvailability({})]. *)
Definition resetAvailability : gmap string json := ∅.

(** ** Application state *)

(** The state hooks of [App] that the filter pipeline, the availability
    store and the owner session read or write, with the browser's
    [localStorage]. *)
Record App := {
  query : string;
  foodFilter : FoodFilter;
  selectedCategoryIds : list string;
  toast : option string;
  ownerMobile : option string;
  ownerLoginOpen : bool;
  showUnavailableForOwner : bool;
  availability : gmap string json;
  localStorage : Storage;
}.

(** [setAvailability(updater)]. *)
Definition setAvailability
    (updater : gmap string json -> gmap string json) (app : App) : App :=
  {| query := query app; foodFilter := foodFilter app;
     selectedCategoryIds := selectedCategoryIds app; toast := toast app;
     ownerMobile := ownerMobile app; ownerLoginOpen := ownerLoginOpen app;
     showUnavailableForOwner := showUnavailableForOwner app;
     availability := updater (availability app);
     localStorage := localStorage app |}.

(** [setSelectedCategoryIds(updater)]. *)
Definition setSelectedCategoryIds
    (updater : list string -> list string) (app : App) : App :=
  {| query := query app; foodFilter := foodFilter app;
     selectedCategoryIds := updater (selectedCategoryIds app);
     toast := toast app;
     ownerMobile := ownerMobile app; ownerLoginOpen := ownerLoginOpen app;
     showUnavailableForOwner := showUnavailableForOwner app;
     availability := availability app;
     localStorage := localStorage app |}.

(** [ownerMobile !== null]. *)
Definition ownerMode (app : App) : bool :=
  match ownerMobile app with Some _ => true | None => false end.

(** The state of [OwnerLoginModal]. *)
Record LoginModal := { value : string; error : option string }.

(** What one run of [submit] does: it either reports an error on the form
    and returns, or hands the normalised number to [onLogin]. *)
Inductive SubmitEffect :=
| setError (msg : string)
| onLogin (mobile : string).

(** [submit] of the login form, on the text of its input field. *)
Definition submit (value : string) : SubmitEffect :=
  match normalizeIndianMobile value with
  | None => setError "Enter a valid Indian mobile number"
  | Some normalized =>
      if negb (Js.truthy_string normalized)
      then setError "Enter a valid Indian mobile number"
      else if negb (bool_decide (normalized ∈ OWNER_MOBILES))
      then setError "Not authorized"
      else onLogin normalized
  end.

Section Host.

(** [JSON.parse] and [JSON.stringify] belong to the host. *)
Variable JSON_parse : string -> outcome json.
Variable JSON_stringify : json -> string.

(** The initialiser of the [availability] state hook. *)
Definition initialAvailability (ls : Storage) : gmap string json :=
  try_catch
    (raw ← getItem ls AVAILABILITY_KEY;
     match raw with
     | None => mret ∅
     | Some raw =>
         if negb (Js.truthy_string raw) then mret ∅
         else
           parsed ← JSON_parse raw;
           if truthy parsed && String.eqb (typeof parsed) "object"
           then mret (ownProperties parsed)
           else mret ∅
     end)
    ∅.

(** ** Owner session *)

Definition ownerLogin (mobile : string) (app : App) : App :=
  {| query := query app; foodFilter := foodFilter app;
     selectedCategoryIds := selectedCategoryIds app;
     toast := Some "Owner mode enabled";
     ownerMobile := Some mobile;
     ownerLoginOpen := false;
     showUnavailableForOwner := showUnavailableForOwner app;
     availability := availability app;
     localStorage :=
       try_catch
         (setItem (localStorage app) OWNER_SESSION_KEY
            (JSON_stringify (JObj {[ "mobile" := JStr mobile ]})))
         (localStorage app) |}.

(** [submit] with [onLogin] bound to [ownerLogin], as [App] renders the
    modal. *)
Definition runSubmit (modal : LoginModal) (app : App) : LoginModal * App :=
  match submit (value modal) with
  | setError msg => ({| value := value modal; error := Some msg |}, app)
  | onLogin mobile => (modal, ownerLogin mobile app)
  end.

End Host.

(** ** Filter pipeline *)

Section Pipeline.

Variable MENU : list MenuSection.
Variable app : App.

(** Whether to include unavailable items in filtering and rendering. *)
Definition includeUnavailable : bool :=
  ownerMode app && showUnavailableForOwner app.

Definition menuByAvailability : list MenuSection :=
  if includeUnavailable then MENU
  else
    List.filter (fun s => (0 <? length (MenuSection.items s))%nat)
      (List.map
         (fun s =>
            MenuSection.with_items s
              (List.filter
                 (fun it => isAvailable (availability app) (MenuItem.id it))
                 (MenuSection.items s)))
         MENU).

Definition baseFilteredMenu : list MenuSection :=
  let q := Js.toLowerCase (Js.trim (query app)) in
  List.filter (fun s => (0 <? length (MenuSection.items s))%nat)
    (List.map
       (fun section =>
          let items :=
            List.filter
              (fun it =>
                 let matchesQuery :=
                   if negb (Js.truthy_string q) then true
                   else
                     Js.includes
                       (Js.toLowerCase
                          (Js.join " "
                             (MenuItem.name it
                              :: List.map
                                   (fun v => normalizeVariantName (Variant.name v))
                                   (MenuItem.variants it))))
                       q in
                 let matchesFood :=
                   match foodFilter app with
                   | ALL => true
                   | VEG => MenuItem.isVeg it
                   | NONVEG => negb (MenuItem.isVeg it)
                   end in
                 matchesQuery && matchesFood)
              (MenuSection.items section) in
          MenuSection.with_items section items)
       menuByAvailability).

Definition filteredMenu : list MenuSection :=
  if (length (selectedCategoryIds app) =? 0)%nat then baseFilteredMenu
  else
    let selected : gset string := list_to_set (selectedCategoryIds app) in
    List.filter (fun s => bool_decide (MenuSection.id s ∈ selected))
      baseFilteredMenu.

Definition availableSectionIds : gset string :=
  list_to_set (List.map MenuSection.id baseFilteredMenu).

Definition foodTypeSectionIds : gset string :=
  match foodFilter app with
  | ALL => list_to_set (List.map MenuSection.id menuByAvailability)
  | VEG =>
      list_to_set
        (List.map MenuSection.id
           (List.filter
              (fun s => existsb (fun i => MenuItem.isVeg i) (MenuSection.items s))
              menuByAvailability))
  | NONVEG =>
      list_to_set
        (List.map MenuSection.id
           (List.filter
              (fun s =>
                 existsb (fun i => negb (MenuItem.isVeg i)) (MenuSection.items s))
              menuByAvailability))
  end.

Definition visibleSectionIds : gset string :=
  list_to_set (List.map MenuSection.id filteredMenu).

(** The effect that drops any selected category that no longer has
    results or no longer applies to the Veg/Non-Veg filter. *)
Definition repairSelectedCategories : App :=
  if (length (selectedCategoryIds app) =? 0)%nat then app
  else
    setSelectedCategoryIds
      (fun prev =>
         List.filter
           (fun id =>
              bool_decide (id ∈ availableSectionIds)
              && bool_decide (id ∈ foodTypeSectionIds))
           prev)
      app.

End Pipeline.

Definition toggleCategory (id : string) (app : App) : App :=
  setSelectedCategoryIds
    (fun prev =>
       if bool_decide (id ∈ prev)
       then List.filter (fun x => negb (String.eqb x id)) prev
       else (prev ++ [id])%list)
    app.

(** ** Reading the specification *)

(** The items of a list of sections, in display order. *)
Definition menuItems (menu : list MenuSection) : list MenuItem :=
  flat_map MenuSection.items menu.

(** The text an item is searched in: its name and its normalised variant
    labels, joined by single spaces and case-folded. *)
Definition searchText (it : MenuItem) : string :=
  Js.toLowerCase
    (Js.join " "
       (MenuItem.name it
        :: List.map (fun v => normalizeVariantName (Variant.name v))
             (MenuItem.variants it))).

(** The availability check on its own: the item is available, or the
    viewer is an owner who includes unavailable items. *)
Definition passesAvailability (app : App) (it : MenuItem) : bool :=
  isAvailable (availability app) (MenuItem.id it)
  || (ownerMode app && showUnavailableForOwner app).

(** The search check on its own: the query is empty, or the search text
    contains the trimmed, case-folded query. *)
Definition passesSearch (app : App) (it : MenuItem) : bool :=
  String.eqb (query app) EmptyString
  || Js.includes (searchText it) (Js.toLowerCase (Js.trim (query app))).

(** The diet check on its own. *)
Definition passesDiet (app : App) (it : MenuItem) : bool :=
  match foodFilter app with
  | ALL => true
  | VEG => MenuItem.isVeg it
  | NONVEG => negb (MenuItem.isVeg it)
  end.

(** One stage of the pipeline run on its own: keep the items that pass
    [check], then drop the sections left empty. *)
Definition stageBy (check : MenuItem -> bool) (menu : list MenuSection)
  : list MenuSection :=
  List.filter (fun s => (0 <? length (MenuSection.items s))%nat)
    (List.map
       (fun s =>
          MenuSection.with_items s (List.filter check (MenuSection.items s)))
       menu).

(** The stages run one after the other, first to last. *)
Definition runStages (checks : list (MenuItem -> bool))
    (menu : list MenuSection) : list MenuSection :=
  fold_left (fun m check => stageBy check m) checks menu.

(** A section is eligible for the diet filter when it survives the
    availability stage and holds an item of the chosen kind. *)
Definition dietEligible (MENU : list MenuSection) (app : App) (id : string)
  : Prop :=
  exists s, s ∈ menuByAvailability MENU app /\ MenuSection.id s = id /\
    match foodFilter app with
    | ALL => True
    | VEG => exists i, i ∈ MenuSection.items s /\ MenuItem.isVeg i = true
    | NONVEG => exists i, i ∈ MenuSection.items s /\ MenuItem.isVeg i = false
    end.

Fixpoint all_chars (p : ascii -> bool) (s : string) : bool :=
  match s with
  | EmptyString => true
  | String c s' => p c && all_chars p s'
  end.

(** No white space at the start, and none at the end. *)
Definition head_ok (s : string) : bool :=
  match s with
  | EmptyString => true
  | String c _ => negb (Js.is_space c)
  end.

Fixpoint last_ok (s : string) : bool :=
  match s with
  | EmptyString => true
  | String c EmptyString => negb (Js.is_space c)
  | String _ s' => last_ok s'
  end.

(** The letters of the three size tokens. *)
Definition tokenLetters : list ascii := ["r"; "e"; "g"; "m"; "d"; "l"; "a"]%char.

Definition isTokenLetter (c : ascii) : bool :=
  existsb (Ascii.eqb c) tokenLetters.

(** A label made of one or more digits, white space (possibly none) and a
    closing double quote. *)
Definition inchLabel (ds ws n : string) : Prop :=
  n = ds +:+ ws +:+ String Js.dquote EmptyString /\
  ds <> EmptyString /\
  all_chars Js.is_digit ds = true /\ all_chars Js.is_space ws = true.

(** A stored value of the shape the store itself writes: an object whose
    every entry is the literal [false]. *)
Definition falseMapping (v : json) : Prop :=
  exists m, v = JObj m /\ forall k x, m !! k = Some x -> x = JBool false.

(** ** An excerpt of the catalog *)

Definition inches (n : string) : string := n +:+ String Js.dquote EmptyString.

Definition sampleMenu : list MenuSection :=
  [ MenuSection.mk "chicken-burgers" "Chicken Burgers" None
      [ MenuItem.mk "chicken-burger" "Chicken Burger" false
          [ Variant.mk "reg" "Regular" 80 ];
        MenuItem.mk "cheese-chicken-burger" "Cheese Chicken Burger" false
          [ Variant.mk "reg" "Regular" 100 ] ];
    MenuSection.mk "veg-pizzas" "Veg Pizzas" None
      [ MenuItem.mk "margherita-pizza" "Margherita Pizza" true
          [ Variant.mk "7" (inches "7") 130;
            Variant.mk "8" (inches "8") 160;
            Variant.mk "10" (inches "10") 260 ];
        MenuItem.mk "cheese-corn-pizza" "Cheese Corn Pizza" true
          [ Variant.mk "7" (inches "7") 140;
            Variant.mk "8" (inches "8") 180;
            Variant.mk "10" (inches "10") 280 ] ];
    MenuSection.mk "fries" "Fries" None
      [ MenuItem.mk "french-fries" "French Fries" true
          [ Variant.mk "reg" "Reg" 55;
            Variant.mk "med" "Med" 90;
            Variant.mk "large" "Large" 120 ];
        MenuItem.mk "veg-cheese-popcorn" "Veg Cheese Popcorn" true
          [ Variant.mk "reg" "Reg" 45;
            Variant.mk "med" "Med" 90;
            Variant.mk "large" "Large" 160 ] ] ].

(** The state hooks as [App] first renders them, over a given overlay. *)
Definition initialApp (overlay : gmap string json) (ls : Storage) : App :=
  {| query := EmptyString; foodFilter := ALL; selectedCategoryIds := [];
     toast := None; ownerMobile := None; ownerLoginOpen := false;
     showUnavailableForOwner := true; availability := overlay;
     localStorage := ls |}.

Definition emptyStorage : Storage := {| entries := ∅; accessible := true |}.

Definition sampleApp : App :=
  {| query := " Pizza "; foodFilter := VEG;
     selectedCategoryIds := ["fries"; "veg-pizzas"; "chicken-burgers"];
     toast := None; ownerMobile := None; ownerLoginOpen := false;
     showUnavailableForOwner := true;
     availability := {[ "cheese-corn-pizza" := JBool false ]};
     localStorage := emptyStorage |}.

(** ** Stored values for the startup examples *)

(** The stored text of an array holding [false], and of an object with one
    entry that is not [false]. *)
Definition storedArray : string := "[false]".
Definition storedObject : string :=
  "{" +:+ String Js.dquote ("x" +:+ String Js.dquote ":true}").

(** [JSON.parse] on those two texts. *)
Definition parseStored (raw : string) : outcome json :=
  if String.eqb raw storedArray then Returns (JArr [JBool false])
  else if String.eqb raw storedObject then Returns (JObj {[ "x" := JBool true ]})
  else Throws.

Definition storageWith (raw : string) : Storage :=
  {| entries := {[ AVAILABILITY_KEY := raw ]}; accessible := true |}.

(** ** Further functions of [App.tsx] *)

(** [setQuery(q)], the handler of the search field. *)
Definition setQuery (q : string) (app : App) : App :=
  {| query := q; foodFilter := foodFilter app;
     selectedCategoryIds := selectedCategoryIds app; toast := toast app;
     ownerMobile := ownerMobile app; ownerLoginOpen := ownerLoginOpen app;
     showUnavailableForOwner := showUnavailableForOwner app;
     availability := availability app;
     localStorage := localStorage app |}.

(** [setOwnerMobile(m)]. *)
Definition setOwnerMobile (m : option string) (app : App) : App :=
  {| query := query app; foodFilter := foodFilter app;
     selectedCategoryIds := selectedCategoryIds app; toast := toast app;
     ownerMobile := m; ownerLoginOpen := ownerLoginOpen app;
     showUnavailableForOwner := showUnavailableForOwner app;
     availability := availability app;
     localStorage := localStorage app |}.

(** The browser's storage after a call of the page. *)
Definition withLocalStorage (ls : Storage) (app : App) : App :=
  {| query := query app; foodFilter := foodFilter app;
     selectedCategoryIds := selectedCategoryIds app; toast := toast app;
     ownerMobile := ownerMobile app; ownerLoginOpen := ownerLoginOpen app;
     showUnavailableForOwner := showUnavailableForOwner app;
     availability := availability app;
     localStorage := ls |}.

Definition removeItem (ls : Storage) (key : string) : outcome Storage :=
  if accessible ls
  then Returns {| entries := delete key (entries ls);
                  accessible := accessible ls |}
  else Throws.

Definition ownerLogout (app : App) : App :=
  {| query := query app; foodFilter := foodFilter app;
     selectedCategoryIds := selectedCategoryIds app;
     toast := Some "Logged out";
     ownerMobile := None;
     ownerLoginOpen := ownerLoginOpen app;
     showUnavailableForOwner := showUnavailableForOwner app;
     availability := availability app;
     localStorage :=
       try_catch (removeItem (localStorage app) OWNER_SESSION_KEY)
         (localStorage app) |}.

Section HostEffects.

Variable JSON_parse : string -> outcome json.
Variable JSON_stringify : json -> string.

(** The effect that restores the owner session when [App] mounts. *)
Definition restoreOwnerSession (app : App) : App :=
  try_catch
    (raw ← getItem (localStorage app) OWNER_SESSION_KEY;
     match raw with
     | None => mret app
     | Some raw =>
         if negb (Js.truthy_string raw) then mret app
         else
           parsed ← JSON_parse raw;
           if negb (truthy parsed)
              || negb (String.eqb (typeof parsed) "object")
           then mret app
           else
             match ownProperties parsed !! "mobile" with
             | Some (JStr mobile) =>
                 if bool_decide (mobile ∈ OWNER_MOBILES)
                 then mret (setOwnerMobile (Some mobile) app)
                 else
                   ls ← removeItem (localStorage app) OWNER_SESSION_KEY;
                   mret (withLocalStorage ls app)
             | _ => mret app
             end
     end)
    app.

(** The effect that persists the overlay whenever it changes.  [current]
    is the value of the [availability] state hook as the runtime holds it:
    the object that an update built, or the object or array that the
    initialiser returned; [availability app] holds its own entries. *)
Definition persistAvailability (current : json) (app : App) : App :=
  withLocalStorage
    (try_catch
       (setItem (localStorage app) AVAILABILITY_KEY (JSON_stringify current))
       (localStorage app))
    app.

End HostEffects.

(** The effect that moves the active section to the first visible one when
    the current one is no longer visible. *)
Definition repairActiveSection (MENU : list MenuSection) (app : App)
    (activeSectionId : string) : string :=
  if (0 <? length (filteredMenu MENU app))%nat
     && negb (bool_decide (activeSectionId ∈ visibleSectionIds MENU app))
  then match filteredMenu MENU app with
       | s :: _ => MenuSection.id s
       | [] => activeSectionId
       end
  else activeSectionId.

(** One entry of [onScroll]: a visible section and the top of its element. *)
Record ScrollEntry := { entryId : string; entryTop : float }.

(** [onScroll]: [rectTop id] is the top of the element registered for the
    section, if one is registered.  The result is the next active section. *)
Definition onScroll (MENU : list MenuSection) (app : App)
    (rectTop : string -> option float) (activeSectionId : string) : string :=
  if (length (filteredMenu MENU app) =? 0)%nat then activeSectionId
  else
    let entries :=
      List.map
        (fun s =>
           match rectTop (MenuSection.id s) with
           | None => {| entryId := MenuSection.id s; entryTop := infinity |}
           | Some t => {| entryId := MenuSection.id s; entryTop := t |}
           end)
        (filteredMenu MENU app) in
    let threshold := 160%float in
    let best0 :=
      match entries with
      | e :: _ => entryId e
      | [] => activeSectionId
      end in
    (fold_left
       (fun (acc : string * float) e =>
          if PrimFloat.leb (entryTop e) threshold
             && PrimFloat.ltb acc.2 (entryTop e)
          then (entryId e, entryTop e)
          else acc)
       entries (best0, neg_infinity)).1.

(** ** Category navigation order *)

Definition preferredOrder : list string :=
  [ "veg-pizzas"; "veg-burgers"; "veg-main-gravy"; "nonveg-pizzas";
    "chicken-burgers"; "nonveg-main-gravy"; "fried-chicken-wings";
    "chinese-starters"; "rice-noodles-thali"; "wraps-rolls"; "sandwich";
    "fries"; "beverages-desserts"; "breads" ].

(** [new Map(preferredOrder.map((id, i) => [id, i]))]: a later pair
    replaces an earlier one with the same key. *)
Definition rank : gmap string Z :=
  fold_left (fun m (p : string * Z) => <[p.1 := p.2]> m)
    (imap (fun i id => (id, Z.of_nat i)) preferredOrder) ∅.

(** [rank.get(id) ?? 999]. *)
Definition rankOf (id : string) : Z := default 999%Z (rank !! id).

Section Navigation.

(** [a.localeCompare(b)] belongs to the host. *)
Variable localeCompare : string -> string -> Z.

(** The comparator handed to [sort]. *)
Definition compareSections (a b : MenuSection) : Z :=
  let ra := rankOf (MenuSection.id a) in
  let rb := rankOf (MenuSection.id b) in
  if negb (ra =? rb)%Z then (ra - rb)%Z
  else localeCompare (MenuSection.title a) (MenuSection.title b).

(** [Array.prototype.sort] is stable; it is modelled by a stable insertion
    sort, which agrees with every stable sort when the comparator is an
    order on the elements compared. *)
Fixpoint insertSection (x : MenuSection) (l : list MenuSection)
  : list MenuSection :=
  match l with
  | [] => [x]
  | y :: l' =>
      if (compareSections x y <=? 0)%Z then x :: y :: l'
      else y :: insertSection x l'
  end.

Definition sortSections (l : list MenuSection) : list MenuSection :=
  foldr insertSection [] l.

Definition categoryNavSections (MENU : list MenuSection) : list MenuSection :=
  sortSections MENU.


End Navigation.

(** ** Item card *)

(** What the card of an item shows of its prices: a price pill, one card
    per variant, or one row for a single variant. *)
Inductive PriceCell :=
| PricePill (price : Z)
| VariantCard (label : string) (price : Z)
| VariantRow (label : string) (price : Z).

Definition cellPrice (c : PriceCell) : Z :=
  match c with
  | PricePill p => p
  | VariantCard _ p => p
  | VariantRow _ p => p
  end.

(** The pattern that matches exactly [regular] or [reg], in any letter
    case. *)
Definition isRegularLabel (n : string) : bool :=
  Js.test_whole_ci "regular" n || Js.test_whole_ci "reg" n.

Definition hasMany (item : MenuItem) : bool :=
  (1 <? length (MenuItem.variants item))%nat.

Definition showSingleVariantRow (item : MenuItem) : bool :=
  match MenuItem.variants item with
  | [] => false
  | only :: _ =>
      negb (isRegularLabel (Js.trim (Variant.name only)))
      || negb (length (MenuItem.variants item) =? 1)%nat
  end.

(** The price cells of [MenuItemCompact], top to bottom: the owner's
    toggle button takes the place of the price pill. *)
Definition priceCells (item : MenuItem) (ownerMode : bool) : list PriceCell :=
  let only := head (MenuItem.variants item) in
  (if ownerMode then []
   else
     match only with
     | Some only =>
         if negb (hasMany item) && negb (showSingleVariantRow item)
         then [PricePill (Variant.price only)]
         else []
     | None => []
     end)
  ++ (if hasMany item
      then List.map
             (fun v =>
                VariantCard (normalizeVariantName (Variant.name v))
                  (Variant.price v))
             (MenuItem.variants item)
      else [])
  ++ (match only with
      | Some only =>
          if negb (hasMany item) && showSingleVariantRow item
          then [VariantRow (normalizeVariantName (Variant.name only))
                  (Variant.price only)]
          else []
      | None => []
      end).

(** ** File name of the QR export *)

(** [a-z0-9]. *)
Definition is_lower_alnum (c : ascii) : bool :=
  ((97 <=? Js.code c)%N && (Js.code c <=? 122)%N) || Js.is_digit c.

Definition dash : ascii := "-"%char.

(** [s.replace(re, dash)] with the global pattern of one or more characters
    outside [a-z0-9]: every maximal run becomes one dash.  [in_run] tells
    that the previous character belonged to a run. *)
Fixpoint replace_runs (in_run : bool) (s : string) : string :=
  match s with
  | EmptyString => EmptyString
  | String c s' =>
      if is_lower_alnum c then String c (replace_runs false s')
      else if in_run then replace_runs true s'
      else String dash (replace_runs true s')
  end.

Definition drop_first_dash (s : string) : string :=
  match s with
  | String c s' => if Ascii.eqb c dash then s' else s
  | EmptyString => EmptyString
  end.

Fixpoint drop_last_dash (s : string) : string :=
  match s with
  | EmptyString => EmptyString
  | String c EmptyString => if Ascii.eqb c dash then EmptyString else s
  | String c s' => String c (drop_last_dash s')
  end.

(** [s.replace(re, empty)] with the global pattern of a dash at the start or
    a dash at the end: at most one dash goes at each end. *)
Definition strip_edge_dashes (s : string) : string :=
  drop_last_dash (drop_first_dash s).

Definition sanitizeFilename (s : string) : string :=
  strip_edge_dashes (replace_runs false (Js.toLowerCase s)).

(** A file name in its final form: letters, digits and single dashes, with
    no dash at either end. *)
Fixpoint clean_from (prev_dash : bool) (s : string) : bool :=
  match s with
  | EmptyString => negb prev_dash
  | String c s' =>
      if is_lower_alnum c then clean_from false s'
      else Ascii.eqb c dash && negb prev_dash && clean_from true s'
  end.

Definition cleanName (s : string) : bool :=
  match s with
  | EmptyString => true
  | String c _ => negb (Ascii.eqb c dash) && clean_from false s
  end.

(** Letters, digits and dashes with no two dashes in a row; [prev_dash]
    tells that a dash stands just before. *)
Fixpoint dashes_single (prev_dash : bool) (s : string) : bool :=
  match s with
  | EmptyString => true
  | String c s' =>
      if is_lower_alnum c then dashes_single false s'
      else Ascii.eqb c dash && negb prev_dash && dashes_single true s'
  end.

Definition head_not_dash (s : string) : bool :=
  match s with
  | EmptyString => true
  | String c _ => negb (Ascii.eqb c dash)
  end.

(** ** Masked phone number *)

Section Mask.

(** The six bullets of the mask are code units above the range of the
    model; the function is taken over the text that stands for them. *)
Variable bullets : string.

Definition maskMobile (m : string) : string :=
  if negb (String.length m =? 10)%nat then m
  else String.substring 0 2 m +:+ bullets +:+ Js.slice m 8.

End Mask.

(** ** Reading the further properties *)

(** The overlay as the store writes it: every entry is the literal
    [false]. *)
Definition onlyFalse (availability : gmap string json) : Prop :=
  forall k x, availability !! k = Some x -> x = JBool false.

(** The order of the category navigation: by increasing rank. *)
Definition rankLt (a b : MenuSection) : Prop :=
  (rankOf (MenuSection.id a) < rankOf (MenuSection.id b))%Z.

(** A host whose [JSON.parse] reads back what its [JSON.stringify] wrote
    for the value [v]. *)
Definition readsBack (JSON_parse : string -> outcome json)
    (JSON_stringify : json -> string) (v : json) : Prop :=
  JSON_stringify v <> EmptyString /\
  JSON_parse (JSON_stringify v) = Returns v.

(** ** A host for the session and overlay examples *)

Definition quoted (s : string) : string :=
  String Js.dquote (s +:+ String Js.dquote EmptyString).

(** The text of the session object of a number made of digits. *)
Definition sessionText (m : string) : string :=
  "{" +:+ quoted "mobile" +:+ ":" +:+ quoted m +:+ "}".

(** [JSON.stringify] on a session object and on the empty object. *)
Definition stringifySample (v : json) : string :=
  match v with
  | JObj o =>
      match o !! "mobile" with
      | Some (JStr m) => sessionText m
      | _ => "{}"
      end
  | _ => "null"
  end.

(** [JSON.parse] on the texts written above. *)
Definition parseSample (raw : string) : outcome json :=
  if String.eqb raw "{}" then Returns (JObj ∅)
  else if String.eqb raw (sessionText "9110162059")
  then Returns (JObj {[ "mobile" := JStr "9110162059" ]})
  else if String.eqb raw (sessionText "9999999999")
  then Returns (JObj {[ "mobile" := JStr "9999999999" ]})
  else Throws.

(** A page whose storage holds the session of a number that is not on the
    allow-list. *)
Definition staleApp : App :=
  initialApp ∅
    {| entries := {[ OWNER_SESSION_KEY := sessionText "9999999999" ]};
       accessible := true |}.

Definition blockedStorage : Storage := {| entries := ∅; accessible := false |}.

(** The overlay that marks Cold Coffee unavailable, the text of its
    object, and a page that holds it over a storage with no entry. *)
Definition coffeeOverlay : gmap string json :=
  {[ "cold-coffee" := JBool false ]}.

Definition coffeeText : string := "{" +:+ quoted "cold-coffee" +:+ ":false}".

Definition coffeeApp : App := initialApp coffeeOverlay emptyStorage.

(** A page whose state hook holds the array that the stored text
    [storedArray] brought in. *)
Definition arrayApp : App := initialApp {[ "0" := JBool false ]} emptyStorage.

(** [JSON.stringify] on that object and on the array holding [false]. *)
Definition stringifyOverlaySample (v : json) : string :=
  match v with
  | JObj _ => coffeeText
  | JArr _ => storedArray
  | _ => "null"
  end.

(** [JSON.parse] on the two texts. *)
Definition parseOverlaySample (raw : string) : outcome json :=
  if String.eqb raw coffeeText then Returns (JObj coffeeOverlay)
  else if String.eqb raw storedArray then Returns (JArr [JBool false])
  else Throws.

(** * Properties *)

(** ** Availability store *)

Section Overlay.

Implicit Types (availability : gmap string json) (id j : string).

Lemma isAvailable_lookup availability id :
  isAvailable availability id = true <->
  availability !! id <> Some (JBool false).
Proof.
  unfold isAvailable.
  destruct (availability !! id) as [[| [] | | | |]|]; split; congruence.
Qed.

(** C2. [isAvailable id] is true exactly when the overlay does not map
    [id] to the literal [false]: an identifier that is absent, or that
    is mapped to any other value, is available. *)
Theorem C2_isAvailable_iff_not_false :
  forall availability id,
    (isAvailable availability id = true <->
     availability !! id <> Some (JBool false)) /\
    (isAvailable availability id = false <->
     availability !! id = Some (JBool false)) /\
    (availability !! id = None -> isAvailable availability id = true) /\
    (forall v, availability !! id = Some v -> v <> JBool false ->
               isAvailable availability id = true).
Proof.
  intros availability id. split; [apply isAvailable_lookup|].
  split; [|split].
  - unfold isAvailable.
    destruct (availability !! id) as [[| [] | | | |]|]; split; congruence.
  - intros E. apply isAvailable_lookup. congruence.
  - intros v E Hv. apply isAvailable_lookup. congruence.
Qed.

Lemma setItemAvailable_true id availability :
  setItemAvailable id true availability = delete id availability.
Proof. reflexivity. Qed.

Lemma assignFalse_plain id availability :
  id <> "__proto__" \/ is_Some (availability !! id) ->
  assignFalse id availability = <[id := JBool false]> availability.
Proof.
  unfold assignFalse. intros [Hne|[x Hx]].
  - by destruct (String.eqb_spec id "__proto__").
  - rewrite Hx. by destruct (String.eqb id "__proto__").
Qed.

(** Under [__proto__], with no own entry, the assignment stores nothing. *)
Lemma assignFalse_proto availability :
  availability !! "__proto__" = None ->
  assignFalse "__proto__" availability = availability.
Proof. unfold assignFalse. simpl. by intros ->. Qed.

Lemma setItemAvailable_false id availability :
  id <> "__proto__" \/ is_Some (availability !! id) ->
  setItemAvailable id false availability
  = <[id := JBool false]> availability.
Proof. apply assignFalse_plain. Qed.

Lemma setItemAvailable_lookup_ne id (b : bool) availability j :
  j <> id -> setItemAvailable id b availability !! j = availability !! j.
Proof.
  intros Hne. unfold setItemAvailable, assignFalse. destruct b; cbn zeta.
  - by apply lookup_delete_ne.
  - destruct (String.eqb id "__proto__"), (availability !! id);
      by rewrite ?lookup_insert_ne.
Qed.

(** The entry of [id] after an update depends on its entry before only. *)
Lemma setItemAvailable_lookup_eq id (b : bool) availability :
  setItemAvailable id b availability !! id
  = if b then None
    else if String.eqb id "__proto__"
         then match availability !! id with
              | Some _ => Some (JBool false)
              | None => None
              end
         else Some (JBool false).
Proof.
  unfold setItemAvailable, assignFalse. destruct b; cbn zeta.
  - apply lookup_delete_eq.
  - destruct (String.eqb id "__proto__"); [|apply lookup_insert_eq].
    destruct (availability !! id) eqn:E; [apply lookup_insert_eq|exact E].
Qed.


(** C10. [setItemAvailable id b] leaves the entry of every other
    identifier as it was, and with it that item's availability. *)
Theorem C10_setItemAvailable_frame :
  forall availability id (b : bool) j,
    j <> id ->
    setItemAvailable id b availability !! j = availability !! j /\
    isAvailable (setItemAvailable id b availability) j
    = isAvailable availability j.
Proof.
  intros availability id b j Hne.
  assert (E : setItemAvailable id b availability !! j = availability !! j)
    by (by apply setItemAvailable_lookup_ne).
  split; [exact E|]. unfold isAvailable. by rewrite E.
Qed.

End Overlay.


(** C10 on the overlay that marks Cold Coffee unavailable, when Hot Coffee
    is marked unavailable too. *)
Lemma C10_setItemAvailable_frame_witness :
  "cold-coffee" <> "hot-coffee" /\
  setItemAvailable "hot-coffee" false {[ "cold-coffee" := JBool false ]}
    !! "cold-coffee"
  = ({[ "cold-coffee" := JBool false ]} : gmap string json) !! "cold-coffee" /\
  isAvailable
    (setItemAvailable "hot-coffee" false {[ "cold-coffee" := JBool false ]})
    "cold-coffee"
  = isAvailable {[ "cold-coffee" := JBool false ]} "cold-coffee".
Proof.
  split; [discriminate|].
  apply (C10_setItemAvailable_frame
           {[ "cold-coffee" := JBool false ]} "hot-coffee" false "cold-coffee").
  discriminate.
Defined.

(** The reserved key: an update under [__proto__] stores nothing when the
    overlay has no entry of its own for it, and overwrites one that a
    stored object brought along. *)
Example setItemAvailable_reserved_key :
  setItemAvailable "__proto__" false ∅ = ∅ /\
  isAvailable (setItemAvailable "__proto__" false ∅) "__proto__" = true /\
  setItemAvailable "__proto__" false {[ "__proto__" := JBool true ]}
  = {[ "__proto__" := JBool false ]} /\
  setItemAvailable "constructor" false ∅ = {[ "constructor" := JBool false ]}.
Proof.
  split; [reflexivity|]. split; [reflexivity|]. split; [|reflexivity].
  unfold setItemAvailable, assignFalse. simpl.
  rewrite lookup_singleton_eq. apply insert_singleton_eq.
Qed.

(** ** Phone normalisation and owner login *)

Lemma append_cons (c : ascii) (s t : string) :
  String c s +:+ t = String c (s +:+ t).
Proof. reflexivity. Qed.

Lemma append_empty (t : string) : EmptyString +:+ t = t.
Proof. reflexivity. Qed.

Ltac sapp := rewrite ?append_cons, ?append_empty in *.

Lemma string_prefix_app (p s : string) :
  String.prefix p s = true <-> exists r, s = p +:+ r.
Proof.
  revert s. induction p as [|c p IH]; intros s; simpl.
  - split; [intros _; by exists s | by destruct s].
  - destruct s as [|d s]; simpl.
    + split; [done | intros [r Hr]; discriminate].
    + destruct (ascii_dec c d) as [->|Hne].
      * rewrite IH. split; intros [r Hr]; exists r; sapp; congruence.
      * split; [done | intros [r Hr]; sapp; congruence].
Qed.

Lemma string_length_app (s t : string) :
  String.length (s +:+ t) = (String.length s + String.length t)%nat.
Proof. induction s; sapp; simpl; congruence. Qed.

Lemma slice_app (p r : string) : Js.slice (p +:+ r) (String.length p) = r.
Proof. induction p; sapp; simpl; [by destruct r | done]. Qed.

Lemma remove_non_digits_all_digits (s : string) :
  all_chars Js.is_digit (Js.remove_non_digits s) = true.
Proof.
  induction s as [|c s IH]; simpl; [done|].
  destruct (Js.is_digit c) eqn:E; simpl; [by rewrite E|done].
Qed.

Lemma remove_non_digits_id (s : string) :
  all_chars Js.is_digit s = true -> Js.remove_non_digits s = s.
Proof.
  induction s as [|c s IH]; simpl; [done|].
  destruct (Js.is_digit c); simpl; [intros H; by rewrite IH | done].
Qed.

(** What [normalizeIndianMobile] accepts, on the digits left of the input. *)
Lemma normalizeIndianMobile_Some (input r : string) :
  normalizeIndianMobile input = Some r <->
  String.length r = 10%nat /\
  (Js.remove_non_digits input = r \/
   Js.remove_non_digits input = "91" +:+ r \/
   Js.remove_non_digits input = "0" +:+ r).
Proof.
  unfold normalizeIndianMobile, Js.startsWith.
  set (digits := Js.remove_non_digits input).
  assert (L91 : forall t, String.length ("91" +:+ t) = S (S (String.length t)))
    by reflexivity.
  assert (L0 : forall t, String.length ("0" +:+ t) = S (String.length t))
    by reflexivity.
  destruct (Nat.eqb_spec (String.length digits) 10) as [L10|N10].
  { split.
    - intros [= <-]. auto.
    - intros [Lr [E|[E|E]]]; [congruence| |]; rewrite E in L10.
      + rewrite L91 in L10. lia.
      + rewrite L0 in L10. lia. }
  destruct (Nat.eqb_spec (String.length digits) 12) as [L12|N12]; simpl.
  { destruct (String.prefix "91" digits) eqn:P.
    - apply string_prefix_app in P as [t Ht].
      assert (Js.slice digits 2 = t) as -> by (rewrite Ht; apply (slice_app "91")).
      rewrite Ht, L91 in L12.
      split.
      + intros [= <-]. split; [lia | auto].
      + intros [Lr [E|[E|E]]].
        * rewrite <- E, Ht, L91 in Lr. lia.
        * rewrite Ht in E. sapp. congruence.
        * rewrite Ht in E. sapp. congruence.
    - destruct (Nat.eqb_spec (String.length digits) 11); [lia|]. simpl.
      split; [done|]. intros [Lr [E|[E|E]]].
      + congruence.
      + assert (String.prefix "91" digits = true) by
          (apply string_prefix_app; eauto). congruence.
      + rewrite E, L0 in L12. lia. }
  destruct (Nat.eqb_spec (String.length digits) 11) as [L11|N11]; simpl.
  { destruct (String.prefix "0" digits) eqn:P.
    - apply string_prefix_app in P as [t Ht].
      assert (Js.slice digits 1 = t) as -> by (rewrite Ht; apply (slice_app "0")).
      rewrite Ht, L0 in L11.
      split.
      + intros [= <-]. split; [lia | auto].
      + intros [Lr [E|[E|E]]].
        * rewrite <- E, Ht, L0 in Lr. lia.
        * rewrite Ht in E. sapp. congruence.
        * rewrite Ht in E. sapp. congruence.
    - split; [done|]. intros [Lr [E|[E|E]]].
      + congruence.
      + rewrite E, L91 in L11. lia.
      + assert (String.prefix "0" digits = true) by
          (apply string_prefix_app; eauto). congruence. }
  split; [done|]. intros [Lr [E|[E|E]]].
  - congruence.
  - rewrite E, L91 in N12. lia.
  - rewrite E, L0 in N11. lia.
Qed.

Lemma normalizeIndianMobile_length (input r : string) :
  normalizeIndianMobile input = Some r -> String.length r = 10%nat.
Proof. intros H. by apply normalizeIndianMobile_Some in H as [? _]. Qed.

(** C8. The five inputs of the specification, and the general rule: on
    the digits left after deleting every non-digit, the function accepts
    exactly ten digits, ten digits after [91], or ten digits after [0],
    returns those ten digits, and rejects every other input. *)
Theorem C8_normalizeIndianMobile_forms :
  normalizeIndianMobile "9876543210" = Some "9876543210" /\
  normalizeIndianMobile "+919876543210" = Some "9876543210" /\
  normalizeIndianMobile "919876543210" = Some "9876543210" /\
  normalizeIndianMobile "09876543210" = Some "9876543210" /\
  normalizeIndianMobile "12345" = None /\
  forall input,
    let digits := Js.remove_non_digits input in
    all_chars Js.is_digit digits = true /\
    (forall r,
       normalizeIndianMobile input = Some r <->
       String.length r = 10%nat /\
       (digits = r \/ digits = "91" +:+ r \/ digits = "0" +:+ r)) /\
    (normalizeIndianMobile input = None <->
     ~ exists r,
         String.length r = 10%nat /\
         (digits = r \/ digits = "91" +:+ r \/ digits = "0" +:+ r)).
Proof.
  repeat (split; [reflexivity|]).
  intros input digits. split; [apply remove_non_digits_all_digits|].
  split; [intros r; apply normalizeIndianMobile_Some|].
  split.
  - intros HN [r Hr]. apply normalizeIndianMobile_Some in Hr. congruence.
  - intros HN. destruct (normalizeIndianMobile input) as [r|] eqn:E; [|done].
    exfalso. apply HN. exists r. by apply normalizeIndianMobile_Some.
Qed.

Lemma truthy_string_length (s : string) :
  String.length s = 10%nat -> Js.truthy_string s = true.
Proof. by destruct s. Qed.

(** [submit], case by case on the normalised number. *)
Lemma submit_cases (v : string) :
  match normalizeIndianMobile v with
  | None => submit v = setError "Enter a valid Indian mobile number"
  | Some m =>
      String.length m = 10%nat /\
      (((m ∈ OWNER_MOBILES) /\ submit v = onLogin m) \/
       ((m ∉ OWNER_MOBILES) /\ submit v = setError "Not authorized"))
  end.
Proof.
  unfold submit. destruct (normalizeIndianMobile v) as [m|] eqn:E; [|done].
  pose proof (normalizeIndianMobile_length _ _ E) as L.
  split; [done|]. rewrite (truthy_string_length _ L). simpl.
  destruct (bool_decide_reflect (m ∈ OWNER_MOBILES)); simpl; auto.
Qed.

(** C9. [submit] reports the invalid-format error exactly when
    normalisation yields no ten-digit number, reports the not-authorised
    error exactly when the normalised number is well formed and outside the
    allow-list, and otherwise logs in, which makes the normalised number
    the owner session; 9110162059 logs in and 9999999999 is not
    authorised. *)
Theorem C9_login_outcomes :
  (forall v,
     submit v = setError "Enter a valid Indian mobile number" <->
     ~ exists m, normalizeIndianMobile v = Some m /\ String.length m = 10%nat) /\
  (forall v,
     submit v = setError "Not authorized" <->
     exists m, normalizeIndianMobile v = Some m /\ String.length m = 10%nat /\
               (m ∉ OWNER_MOBILES)) /\
  (forall v m,
     submit v = onLogin m <->
     normalizeIndianMobile v = Some m /\ (m ∈ OWNER_MOBILES)) /\
  (forall stringify modal app,
     match submit (value modal) with
     | onLogin m =>
         ownerMobile (runSubmit stringify modal app).2 = Some m /\
         ownerMode (runSubmit stringify modal app).2 = true /\
         (accessible (localStorage app) = true ->
          entries (localStorage (runSubmit stringify modal app).2)
            !! OWNER_SESSION_KEY
          = Some (stringify (JObj {[ "mobile" := JStr m ]})))
     | setError msg =>
         (runSubmit stringify modal app).2 = app /\
         error (runSubmit stringify modal app).1 = Some msg
     end) /\
  submit "9110162059" = onLogin "9110162059" /\
  submit "9999999999" = setError "Not authorized".
Proof.
  split; [|split; [|split; [|split; [|split; reflexivity]]]].
  - intros v. pose proof (submit_cases v) as H.
    destruct (normalizeIndianMobile v) as [m|].
    + destruct H as [L [[_ ->]|[_ ->]]]; (split; [done|]);
        intros HN; exfalso; apply HN; eauto.
    + split; [|done]. intros _ [m [? _]]. done.
  - intros v. pose proof (submit_cases v) as H.
    destruct (normalizeIndianMobile v) as [m|].
    + destruct H as [L [[Hin ->]|[Hout ->]]].
      * split; [done|]. intros [m' [[= <-] [_ ?]]]. done.
      * split; [eauto|done].
    + rewrite H. split; [done|]. intros [m [? _]]. done.
  - intros v m. pose proof (submit_cases v) as H.
    destruct (normalizeIndianMobile v) as [m'|].
    + destruct H as [L [[Hin ->]|[Hout ->]]].
      * split; [intros [= <-]; done | intros [[= <-] _]; done].
      * split; [done | intros [[= <-] ?]; done].
    + rewrite H. split; [done | intros [? _]; done].
  - intros stringify modal app. unfold runSubmit.
    destruct (submit (value modal)) as [msg|m]; simpl; [done|].
    repeat split. intros Hacc. unfold setItem. rewrite Hacc. simpl.
    apply lookup_insert_eq.
Qed.

(** ** Filter pipeline *)

Lemma List_filter_sublist {A : Type} (f : A -> bool) (l : list A) :
  List.filter f l `sublist_of` l.
Proof.
  induction l as [|x l IH]; simpl; [constructor|].
  destruct (f x); by constructor.
Qed.

(** C6. The visible sections are a sub-list of the base-filtered sections,
    whatever the selection; with no category selected they are the
    base-filtered sections themselves. *)
Theorem C6_category_filter_only_narrows :
  forall (MENU : list MenuSection) (app : App),
    filteredMenu MENU app `sublist_of` baseFilteredMenu MENU app /\
    (forall s, s ∈ filteredMenu MENU app -> s ∈ baseFilteredMenu MENU app) /\
    (length (filteredMenu MENU app) <= length (baseFilteredMenu MENU app))%nat /\
    (selectedCategoryIds app = [] ->
     filteredMenu MENU app = baseFilteredMenu MENU app).
Proof.
  intros MENU app.
  assert (S : filteredMenu MENU app `sublist_of` baseFilteredMenu MENU app).
  { unfold filteredMenu.
    destruct (length (selectedCategoryIds app) =? 0)%nat; [done|].
    apply List_filter_sublist. }
  split; [exact S|]. split; [|split].
  - intros s Hs. by eapply elem_of_sublist.
  - by apply sublist_length.
  - intros E. unfold filteredMenu. by rewrite E.
Qed.

Section Stages.

Implicit Types (p q : MenuItem -> bool) (menu : list MenuSection).

Lemma List_filter_filter {A : Type} (f g : A -> bool) (l : list A) :
  List.filter g (List.filter f l) = List.filter (fun x => f x && g x) l.
Proof.
  induction l as [|x l IH]; simpl; [done|].
  destruct (f x); simpl; [destruct (g x)|]; congruence.
Qed.

Lemma stageBy_cons p (s : MenuSection) menu :
  stageBy p (s :: menu) =
  match List.filter p (MenuSection.items s) with
  | [] => stageBy p menu
  | its => MenuSection.with_items s its :: stageBy p menu
  end.
Proof.
  unfold stageBy. simpl.
  by destruct (List.filter p (MenuSection.items s)).
Qed.

(** Two stages in a row are one stage on the conjunction of their checks. *)
Lemma stageBy_stageBy p q menu :
  stageBy q (stageBy p menu) = stageBy (fun it => p it && q it) menu.
Proof.
  induction menu as [|s menu IH]; [done|].
  rewrite !stageBy_cons, <- List_filter_filter.
  destruct (List.filter p (MenuSection.items s)) as [|x xs]; simpl; [done|].
  rewrite stageBy_cons. simpl. by rewrite IH.
Qed.

Lemma stageBy_ext p q menu :
  (forall it, p it = q it) -> stageBy p menu = stageBy q menu.
Proof.
  intros E. unfold stageBy. f_equal. apply map_ext. intros s. f_equal.
  by apply filter_ext.
Qed.

(** Dropping the empty sections loses no item: a stage filters the items
    of the menu, in order. *)
Lemma menuItems_stageBy p menu :
  menuItems (stageBy p menu) = List.filter p (menuItems menu).
Proof.
  induction menu as [|s menu IH]; [done|].
  rewrite stageBy_cons. unfold menuItems in *. simpl.
  rewrite List.filter_app, <- IH.
  by destruct (List.filter p (MenuSection.items s)).
Qed.

Lemma runStages_cons (c : MenuItem -> bool) (cs : list (MenuItem -> bool)) menu :
  runStages (c :: cs) menu
  = stageBy (fun it => forallb (fun k => k it) (c :: cs)) menu.
Proof.
  revert c menu. induction cs as [|c' cs IH]; intros c menu.
  - simpl. apply stageBy_ext. intros it. by rewrite andb_true_r.
  - change (runStages (c :: c' :: cs) menu)
      with (runStages (c' :: cs) (stageBy c menu)).
    rewrite IH, stageBy_stageBy. done.
Qed.

Lemma forallb_Permutation {A : Type} (f : A -> bool) (l l' : list A) :
  l ≡ₚ l' -> forallb f l = forallb f l'.
Proof.
  induction 1 as [|x l l' _ IH|x y l|l l' l'' _ IH1 _ IH2]; simpl.
  - done.
  - by rewrite IH.
  - destruct (f x), (f y); done.
  - congruence.
Qed.

Lemma includes_empty (s : string) : Js.includes s EmptyString = true.
Proof. by destruct s. Qed.

(** The base filter is one stage on the conjunction of the three checks. *)
Lemma baseFilteredMenu_stageBy (MENU : list MenuSection) (app : App) :
  baseFilteredMenu MENU app
  = stageBy
      (fun it =>
         passesAvailability app it && (passesSearch app it && passesDiet app it))
      MENU.
Proof.
  set (sd := fun it => passesSearch app it && passesDiet app it).
  assert (E : baseFilteredMenu MENU app
              = stageBy sd (menuByAvailability MENU app)).
  { unfold baseFilteredMenu.
    change (stageBy ?f ?m) with
      (List.filter (fun s => (0 <? length (MenuSection.items s))%nat)
         (List.map
            (fun s => MenuSection.with_items s
                        (List.filter f (MenuSection.items s))) m)).
    cbv zeta. f_equal. apply map_ext. intros s. f_equal.
    apply filter_ext. intros it. unfold sd, passesSearch, passesDiet.
    f_equal. fold (searchText it).
    destruct (Js.toLowerCase (Js.trim (query app))) as [|c q] eqn:Q.
    - simpl. by rewrite includes_empty, orb_true_r.
    - simpl. destruct (String.eqb_spec (query app) EmptyString) as [Z|_];
        [|done].
      rewrite Z in Q. discriminate. }
  rewrite E. unfold menuByAvailability, passesAvailability, includeUnavailable.
  destruct (ownerMode app && showUnavailableForOwner app).
  - apply stageBy_ext. intros it. by rewrite orb_true_r.
  - fold (stageBy (fun it => isAvailable (availability app) (MenuItem.id it)) MENU).
    rewrite stageBy_stageBy. apply stageBy_ext. intros it.
    by rewrite orb_false_r.
Qed.

End Stages.

(** C1. The base-filtered result holds an item exactly when the item is in
    the catalog and passes the availability check, the search check and
    the diet check, each taken on its own; the items come out in catalog
    order; and running the three checks as separate stages, in any order,
    gives the base-filtered sections. *)
Theorem C1_base_filter_conjunctive :
  forall (MENU : list MenuSection) (app : App),
    (forall it,
       it ∈ menuItems (baseFilteredMenu MENU app) <->
       it ∈ menuItems MENU /\
       passesAvailability app it = true /\
       passesSearch app it = true /\
       passesDiet app it = true) /\
    menuItems (baseFilteredMenu MENU app)
    = List.filter
        (fun it =>
           passesAvailability app it && (passesSearch app it && passesDiet app it))
        (menuItems MENU) /\
    (forall checks,
       checks ≡ₚ [passesAvailability app; passesSearch app; passesDiet app] ->
       runStages checks MENU = baseFilteredMenu MENU app).
Proof.
  intros MENU app.
  pose proof (baseFilteredMenu_stageBy MENU app) as B.
  assert (I : menuItems (baseFilteredMenu MENU app)
              = List.filter
                  (fun it =>
                     passesAvailability app it
                     && (passesSearch app it && passesDiet app it))
                  (menuItems MENU)).
  { rewrite B. apply menuItems_stageBy. }
  split; [|split; [exact I|]].
  - intros it. rewrite I, !list_elem_of_In, filter_In, !andb_true_iff. tauto.
  - intros checks P. destruct checks as [|c cs].
    { apply Permutation_length in P. discriminate. }
    rewrite runStages_cons, B. apply stageBy_ext. intros it.
    rewrite (forallb_Permutation (fun k => k it) _ _ P). simpl.
    by rewrite andb_true_r.
Qed.

(** ** Selection repair *)

Lemma elem_of_stageBy (p : MenuItem -> bool) (menu : list MenuSection)
    (s : MenuSection) :
  s ∈ stageBy p menu <->
  exists s0, s0 ∈ menu /\
    s = MenuSection.with_items s0 (List.filter p (MenuSection.items s0)) /\
    List.filter p (MenuSection.items s0) <> [].
Proof.
  unfold stageBy. rewrite list_elem_of_In, filter_In, in_map_iff. split.
  - intros [[s0 [<- Hin]] Hlen]. exists s0. rewrite list_elem_of_In.
    repeat split; [done|]. simpl in Hlen. intros E. by rewrite E in Hlen.
  - intros [s0 [Hin [-> Hne]]]. rewrite list_elem_of_In in Hin. split; [eauto|].
    simpl. by destruct (List.filter p (MenuSection.items s0)).
Qed.

Lemma baseFilteredMenu_setSelectedCategoryIds
    (MENU : list MenuSection) (f : list string -> list string) (app : App) :
  baseFilteredMenu MENU (setSelectedCategoryIds f app)
  = baseFilteredMenu MENU app.
Proof. reflexivity. Qed.

Lemma elem_of_availableSectionIds (MENU : list MenuSection) (app : App)
    (id : string) :
  id ∈ availableSectionIds MENU app <->
  exists s, s ∈ baseFilteredMenu MENU app /\ MenuSection.id s = id.
Proof.
  unfold availableSectionIds.
  rewrite elem_of_list_to_set, list_elem_of_In, in_map_iff.
  split; intros [s [? ?]]; exists s; by rewrite ?list_elem_of_In in *.
Qed.

Lemma elem_of_foodTypeSectionIds (MENU : list MenuSection) (app : App)
    (id : string) :
  id ∈ foodTypeSectionIds MENU app <-> dietEligible MENU app id.
Proof.
  unfold foodTypeSectionIds, dietEligible.
  destruct (foodFilter app);
    rewrite elem_of_list_to_set, list_elem_of_In, in_map_iff.
  - split.
    + intros [s [? ?]]. exists s. by rewrite list_elem_of_In.
    + intros [s [? [? _]]]. exists s. by rewrite <- list_elem_of_In.
  - split.
    + intros [s [E [Hin Hex]%filter_In]]. apply existsb_exists in Hex as [i [? ?]].
      exists s. split; [by apply list_elem_of_In|]. split; [done|].
      exists i. split; [by apply list_elem_of_In | done].
    + intros [s [Hin [E [i [Hi Hv]]]]]. exists s. split; [done|].
      apply filter_In. rewrite list_elem_of_In in Hin. split; [done|].
      apply existsb_exists. exists i. by rewrite <- list_elem_of_In.
  - split.
    + intros [s [E [Hin Hex]%filter_In]]. apply existsb_exists in Hex as [i [? Hv]].
      apply negb_true_iff in Hv.
      exists s. split; [by apply list_elem_of_In|]. split; [done|].
      exists i. split; [by apply list_elem_of_In | done].
    + intros [s [Hin [E [i [Hi Hv]]]]]. exists s. split; [done|].
      apply filter_In. rewrite list_elem_of_In in Hin. split; [done|].
      apply existsb_exists. exists i. rewrite <- list_elem_of_In.
      by rewrite Hv.
Qed.

(** C5. After the repair step, every category still selected has a
    section among the base-filtered ones, with at least one item, each of
    whose items passes the three checks; it is eligible for the current
    diet filter; and its section is among the visible ones. *)
Theorem C5_selection_repair :
  forall (MENU : list MenuSection) (app : App) (id : string),
    id ∈ selectedCategoryIds (repairSelectedCategories MENU app) ->
    (exists s,
       s ∈ baseFilteredMenu MENU app /\ MenuSection.id s = id /\
       MenuSection.items s <> [] /\
       forall it, it ∈ MenuSection.items s ->
         passesAvailability app it = true /\
         passesSearch app it = true /\
         passesDiet app it = true) /\
    dietEligible MENU app id /\
    (exists s,
       s ∈ filteredMenu MENU (repairSelectedCategories MENU app) /\
       MenuSection.id s = id).
Proof.
  intros MENU app id Hsel.
  assert (Hkeep : id ∈ availableSectionIds MENU app /\
                  id ∈ foodTypeSectionIds MENU app /\
                  selectedCategoryIds (repairSelectedCategories MENU app) <> []).
  { unfold repairSelectedCategories in Hsel |- *.
    destruct (selectedCategoryIds app) as [|x xs] eqn:E; simpl in Hsel.
    - rewrite E in Hsel. by apply elem_of_nil in Hsel.
    - simpl in *. rewrite E in Hsel |- *.
      pose proof Hsel as Hsel'.
      rewrite list_elem_of_In, filter_In, andb_true_iff in Hsel.
      destruct Hsel as [_ [H1%bool_decide_eq_true H2%bool_decide_eq_true]].
      repeat split; [done..|]. intros Z. rewrite Z in Hsel'.
      by apply elem_of_nil in Hsel'. }
  destruct Hkeep as [Hav [Hft Hne]].
  apply elem_of_availableSectionIds in Hav as [s [Hs Hid]].
  split; [|split].
  - exists s. split; [done|]. split; [done|]. split.
    + rewrite baseFilteredMenu_stageBy in Hs.
      apply elem_of_stageBy in Hs as [s0 [_ [-> Hn]]]. done.
    + intros it Hit. rewrite baseFilteredMenu_stageBy in Hs.
      apply elem_of_stageBy in Hs as [s0 [_ [-> Hn]]]. simpl in Hit.
      rewrite list_elem_of_In, filter_In, !andb_true_iff in Hit. tauto.
  - by apply elem_of_foodTypeSectionIds.
  - exists s. split; [|done]. unfold filteredMenu.
    destruct (selectedCategoryIds (repairSelectedCategories MENU app))
      as [|y ys] eqn:E; [done|].
    simpl length. cbv iota beta. simpl Nat.eqb. cbv iota.
    assert (B : baseFilteredMenu MENU (repairSelectedCategories MENU app)
                = baseFilteredMenu MENU app).
    { unfold repairSelectedCategories.
      by destruct (length (selectedCategoryIds app) =? 0)%nat. }
    rewrite B, list_elem_of_In, filter_In, <- list_elem_of_In.
    split; [done|]. apply bool_decide_eq_true.
    by rewrite elem_of_list_to_set, Hid.
Qed.

(** C5 on the catalog excerpt: Veg Pizzas stays selected, is eligible and
    is shown. *)
Lemma C5_selection_repair_witness :
  "veg-pizzas" ∈ selectedCategoryIds (repairSelectedCategories sampleMenu sampleApp) /\
  dietEligible sampleMenu sampleApp "veg-pizzas" /\
  exists s,
    s ∈ filteredMenu sampleMenu (repairSelectedCategories sampleMenu sampleApp) /\
    MenuSection.id s = "veg-pizzas".
Proof.
  assert (H : "veg-pizzas"
              ∈ selectedCategoryIds (repairSelectedCategories sampleMenu sampleApp)).
  { vm_compute. constructor. }
  split; [exact H|].
  exact (proj2 (C5_selection_repair sampleMenu sampleApp "veg-pizzas" H)).
Defined.

(** ** Startup of the availability store *)

Lemma truthy_string_false (s : string) :
  Js.truthy_string s = false <-> s = EmptyString.
Proof. destruct s; simpl; split; done. Qed.

(** C3 (as the code has it). The overlay starts empty when the stored value
    cannot be read, is missing, is the empty string, does not parse, or
    parses to [null], a boolean, a number or a string.  A stored value that
    parses to an object is the overlay as stored, whatever its values; an
    item is then unavailable exactly when its own key holds the literal
    [false].  The initialiser returns an overlay in every case. *)
Theorem C3_initialAvailability_by_typeof :
  forall (JSON_parse : string -> outcome json) (ls : Storage),
    (getItem ls AVAILABILITY_KEY = Throws ->
     initialAvailability JSON_parse ls = ∅) /\
    (getItem ls AVAILABILITY_KEY = Returns None ->
     initialAvailability JSON_parse ls = ∅) /\
    (forall raw,
       getItem ls AVAILABILITY_KEY = Returns (Some raw) ->
       (raw = EmptyString -> initialAvailability JSON_parse ls = ∅) /\
       (JSON_parse raw = Throws -> initialAvailability JSON_parse ls = ∅) /\
       (JSON_parse raw = Returns JNull ->
        initialAvailability JSON_parse ls = ∅) /\
       (forall v,
          JSON_parse raw = Returns v -> typeof v <> "object" ->
          initialAvailability JSON_parse ls = ∅) /\
       (forall m,
          raw <> EmptyString -> JSON_parse raw = Returns (JObj m) ->
          initialAvailability JSON_parse ls = m)) /\
    (forall id,
       isAvailable (initialAvailability JSON_parse ls) id = false <->
       initialAvailability JSON_parse ls !! id = Some (JBool false)).
Proof.
  intros JSON_parse ls. unfold initialAvailability.
  split; [|split; [|split]].
  - by intros ->.
  - by intros ->.
  - intros raw ->. simpl.
    destruct (Js.truthy_string raw) eqn:T; simpl.
    + split; [intros ->; discriminate|].
      split; [by intros ->|]. split; [by intros ->|]. split.
      * intros v -> Hty. simpl.
        destruct (truthy v); simpl; [|done].
        destruct (String.eqb_spec (typeof v) "object"); done.
      * by intros m _ ->.
    + apply truthy_string_false in T. repeat split; done.
  - intros id. unfold isAvailable.
    destruct (_ !! id) as [[| [] | | | |]|]; split; congruence.
Qed.

(** C3 as stated fails: a stored array, and a stored object whose entry is
    not [false], are shapes other than a mapping to [false], and neither
    makes the overlay start empty; the array even marks the identifier
    [0] unavailable. *)
Lemma C3_stored_shapes_kept :
  ~ falseMapping (JArr [JBool false]) /\
  initialAvailability parseStored (storageWith storedArray) <> ∅ /\
  isAvailable (initialAvailability parseStored (storageWith storedArray)) "0"
  = false /\
  ~ falseMapping (JObj {[ "x" := JBool true ]}) /\
  initialAvailability parseStored (storageWith storedObject)
  = {[ "x" := JBool true ]} /\
  initialAvailability parseStored (storageWith storedObject) <> ∅.
Proof.
  assert (A : initialAvailability parseStored (storageWith storedArray)
              = {[ "0" := JBool false ]}).
  { unfold initialAvailability, storageWith, getItem. simpl.
    rewrite lookup_singleton_eq. simpl. reflexivity. }
  assert (O : initialAvailability parseStored (storageWith storedObject)
              = {[ "x" := JBool true ]}).
  { unfold initialAvailability, storageWith, getItem. simpl.
    rewrite lookup_singleton_eq. simpl. reflexivity. }
  split; [|split; [|split; [|split; [|split]]]].
  - intros [m [? _]]. discriminate.
  - rewrite A. intros E. apply (f_equal (fun m => m !! "0")) in E.
    by rewrite lookup_singleton_eq, lookup_empty in E.
  - rewrite A. unfold isAvailable. by rewrite lookup_singleton_eq.
  - intros [m [[= <-] H]]. specialize (H "x" (JBool true)).
    rewrite lookup_singleton_eq in H. by specialize (H eq_refl).
  - exact O.
  - rewrite O. intros E. apply (f_equal (fun m => m !! "x")) in E.
    by rewrite lookup_singleton_eq, lookup_empty in E.
Qed.

(** ** Variant label normalisation *)

Ltac by_ascii c :=
  destruct c as [[|] [|] [|] [|] [|] [|] [|] [|]]; vm_compute; try done.

Lemma digit_not_space (c : ascii) :
  Js.is_digit c = true -> Js.is_space c = false.
Proof. by_ascii c. Qed.

Lemma space_not_digit (c : ascii) :
  Js.is_space c = true -> Js.is_digit c = false.
Proof. by_ascii c. Qed.

Lemma append_assoc (a b c : string) : (a +:+ b) +:+ c = a +:+ (b +:+ c).
Proof. induction a; sapp; congruence. Qed.

Lemma append_empty_r (a : string) : a +:+ EmptyString = a.
Proof. induction a; sapp; congruence. Qed.

Lemma trimStart_head_ok (s : string) : head_ok (Js.trimStart s) = true.
Proof.
  induction s as [|c s IH]; simpl; [done|].
  destruct (Js.is_space c) eqn:E; simpl; [done|by rewrite E].
Qed.

Lemma trimStart_id (s : string) : head_ok s = true -> Js.trimStart s = s.
Proof. destruct s as [|c s]; simpl; [done|]. by destruct (Js.is_space c). Qed.

Lemma trimStart_spaces (s : string) :
  Js.trimStart s = EmptyString <-> all_chars Js.is_space s = true.
Proof.
  induction s as [|c s IH]; simpl; [done|].
  destruct (Js.is_space c); simpl; [done|]. split; done.
Qed.

Lemma trimStart_decomp (s : string) :
  exists ws, s = ws +:+ Js.trimStart s /\ all_chars Js.is_space ws = true.
Proof.
  induction s as [|c s [ws [E Hws]]]; simpl.
  - by exists EmptyString.
  - destruct (Js.is_space c) eqn:Hc.
    + exists (String c ws). sapp. simpl. rewrite Hc. split; [congruence|done].
    + by exists EmptyString.
Qed.

Lemma trimStart_app_spaces (ws r : string) :
  all_chars Js.is_space ws = true -> Js.trimStart (ws +:+ r) = Js.trimStart r.
Proof.
  induction ws as [|c ws IH]; sapp; simpl; [done|].
  destruct (Js.is_space c); simpl; [done|discriminate].
Qed.

Lemma trimEnd_last_ok (s : string) : last_ok (Js.trimEnd s) = true.
Proof.
  induction s as [|c s IH]; simpl; [done|].
  destruct (Js.trimEnd s) as [|d r].
  - destruct (Js.is_space c) eqn:E; simpl; [done|by rewrite E].
  - exact IH.
Qed.

Lemma trimEnd_head_ok (s : string) :
  head_ok s = true -> head_ok (Js.trimEnd s) = true.
Proof.
  destruct s as [|c s]; simpl; [done|]. intros H.
  destruct (Js.trimEnd s); [|done].
  destruct (Js.is_space c) eqn:E; [done|]. simpl. by rewrite E.
Qed.

Lemma trimEnd_id (s : string) : last_ok s = true -> Js.trimEnd s = s.
Proof.
  induction s as [|c s IH]; [done|].
  destruct s as [|d r].
  - simpl. by destruct (Js.is_space c).
  - intros H. change (last_ok (String d r) = true) in H.
    change (Js.trimEnd (String c (String d r)))
      with (match Js.trimEnd (String d r) with
            | EmptyString =>
                if Js.is_space c then EmptyString else String c EmptyString
            | String a b => String c (String a b)
            end).
    by rewrite (IH H).
Qed.

Lemma trim_head_ok (s : string) : head_ok (Js.trim s) = true.
Proof. apply trimEnd_head_ok, trimStart_head_ok. Qed.

Lemma trim_last_ok (s : string) : last_ok (Js.trim s) = true.
Proof. apply trimEnd_last_ok. Qed.

Lemma trim_id (s : string) :
  head_ok s = true -> last_ok s = true -> Js.trim s = s.
Proof. intros H L. unfold Js.trim. by rewrite (trimStart_id _ H), trimEnd_id. Qed.

Lemma last_ok_spaces (w : string) :
  last_ok w = true -> all_chars Js.is_space w = true -> w = EmptyString.
Proof.
  induction w as [|c w IH]; [done|]. simpl.
  destruct w as [|d r].
  - by destruct (Js.is_space c).
  - intros L [_ S]%andb_true_iff. by specialize (IH L S).
Qed.

Lemma last_ok_app_spaces (x w : string) :
  last_ok (x +:+ w) = true -> all_chars Js.is_space w = true ->
  w = EmptyString.
Proof.
  induction x as [|c x IH]; sapp; [apply last_ok_spaces|].
  simpl. destruct (x +:+ w) as [|d r] eqn:E.
  - intros _ _. destruct x; sapp; [done|discriminate].
  - done.
Qed.

Lemma span_digits_spec (s : string) :
  s = (Js.span_digits s).1 +:+ (Js.span_digits s).2 /\
  all_chars Js.is_digit (Js.span_digits s).1 = true.
Proof.
  induction s as [|c s [E D]]; simpl; [done|].
  destruct (Js.is_digit c) eqn:Hc; [|done].
  destruct (Js.span_digits s) as [ds rest]. simpl in *. sapp.
  rewrite Hc. split; [congruence|done].
Qed.

Lemma span_digits_app (ds rest : string) :
  all_chars Js.is_digit ds = true ->
  match rest with
  | EmptyString => True
  | String c _ => Js.is_digit c = false
  end ->
  Js.span_digits (ds +:+ rest) = (ds, rest).
Proof.
  intros D R. induction ds as [|c ds IH]; sapp; simpl.
  - destruct rest as [|c r]; [done|]. simpl. by rewrite R.
  - simpl in D. apply andb_true_iff in D as [-> D]. by rewrite (IH D).
Qed.

Lemma match_inches_Some (n ds : string) :
  head_ok n = true -> last_ok n = true ->
  match_inches n = Some ds -> exists ws, inchLabel ds ws n.
Proof.
  intros H L. unfold match_inches. rewrite (trimStart_id _ H).
  destruct (span_digits_spec n) as [E D].
  destruct (Js.span_digits n) as [ds' rest]. simpl in E, D.
  destruct ds' as [|d ds']; [done|].
  destruct (Js.trimStart rest) as [|c tl] eqn:R; [done|].
  destruct (Ascii.eqb_spec c Js.dquote) as [->|_]; [|done].
  destruct (Js.trimStart tl) eqn:T; [|done].
  intros [= <-].
  destruct (trimStart_decomp rest) as [ws [Er Hws]]. rewrite R in Er.
  apply trimStart_spaces in T.
  assert (N : n = (String d ds' +:+ ws +:+ String Js.dquote EmptyString) +:+ tl).
  { rewrite !append_assoc. sapp. congruence. }
  rewrite N in L. pose proof (last_ok_app_spaces _ _ L T) as ->.
  rewrite append_empty_r in N. exists ws. by repeat split.
Qed.

Lemma match_inches_inchLabel (n ds ws : string) :
  inchLabel ds ws n -> match_inches n = Some ds.
Proof.
  intros [-> [Hne [D S]]]. unfold match_inches.
  destruct ds as [|d ds]; [done|].
  assert (Hd : Js.is_digit d = true) by (simpl in D; by destruct (Js.is_digit d)).
  rewrite trimStart_id by (sapp; simpl; by rewrite (digit_not_space _ Hd)).
  rewrite span_digits_app; [|done|].
  - by rewrite trimStart_app_spaces.
  - destruct ws as [|c ws]; sapp; [done|].
    simpl in S. apply space_not_digit. by destruct (Js.is_space c).
Qed.

Lemma canon_letter (c p : ascii) :
  In p tokenLetters ->
  Ascii.eqb (Js.canonicalize c) (Js.canonicalize p)
  = Ascii.eqb (Js.lower_char c) p.
Proof.
  intros H. repeat (destruct H as [<-|H]; [by_ascii c|]). destruct H.
Qed.

Lemma letter_plain (c p : ascii) :
  In p tokenLetters -> Js.lower_char c = p ->
  Js.is_space c = false /\ Js.is_digit c = false.
Proof.
  intros H E.
  repeat (destruct H as [<-|H];
          [destruct c as [[|] [|] [|] [|] [|] [|] [|] [|]];
           vm_compute in E |- *; (done || discriminate)|]).
  destruct H.
Qed.

Lemma all_letters_cons (p : ascii) (pat : string) :
  all_chars isTokenLetter (String p pat) = true ->
  In p tokenLetters /\ all_chars isTokenLetter pat = true.
Proof.
  simpl. intros [Hp ?]%andb_true_iff. split; [|done].
  apply existsb_exists in Hp as [x [Hx E]].
  apply Ascii.eqb_eq in E. by subst.
Qed.

(** For a pattern of lower-case letters, the case-insensitive whole match
    is equality after case folding. *)
Lemma test_whole_ci_lower (pat n : string) :
  all_chars isTokenLetter pat = true ->
  Js.test_whole_ci pat n = String.eqb (Js.toLowerCase n) pat.
Proof.
  unfold Js.test_whole_ci. revert n.
  induction pat as [|p pat IH]; intros n A.
  - by destruct n.
  - destruct n as [|c n]; [done|].
    apply all_letters_cons in A as [Hp A]. simpl.
    by rewrite (canon_letter c p Hp), (IH n A).
Qed.

Lemma lower_letters_trimmed (pat n : string) :
  all_chars isTokenLetter pat = true -> Js.toLowerCase n = pat ->
  head_ok n = true /\ last_ok n = true.
Proof.
  revert pat. induction n as [|c n IH]; intros pat A E; [done|].
  destruct pat as [|p pat]; [done|]. simpl in E. injection E as Ec En.
  apply all_letters_cons in A as [Hp A].
  destruct (letter_plain c p Hp Ec) as [Hs _].
  split; [simpl; by rewrite Hs|].
  destruct n as [|d r]; [simpl; by rewrite Hs|].
  exact (proj2 (IH pat A En)).
Qed.

Lemma token_not_inches (pat n : string) :
  all_chars isTokenLetter pat = true -> Js.toLowerCase n = pat ->
  match_inches n = None.
Proof.
  intros A E. destruct (lower_letters_trimmed pat n A E) as [H L].
  destruct (match_inches n) as [ds|] eqn:M; [|done]. exfalso.
  apply (match_inches_Some _ _ H L) in M as [ws [-> [Hne [D _]]]].
  destruct ds as [|d ds]; [done|]. sapp. simpl in E.
  destruct pat as [|p pat]; [done|]. injection E as Ec _.
  apply all_letters_cons in A as [Hp _].
  destruct (letter_plain d p Hp Ec) as [_ Hd].
  simpl in D. by rewrite Hd in D.
Qed.

Lemma normalizeVariantName_inches (name ds ws : string) :
  inchLabel ds ws (Js.trim name) ->
  normalizeVariantName name = ds +:+ " inches".
Proof.
  intros I. unfold normalizeVariantName.
  by rewrite (match_inches_inchLabel _ _ _ I).
Qed.

Lemma normalizeVariantName_token (name : string) :
  (Js.toLowerCase (Js.trim name) = "reg" -> normalizeVariantName name = "Regular") /\
  (Js.toLowerCase (Js.trim name) = "med" -> normalizeVariantName name = "Medium") /\
  (Js.toLowerCase (Js.trim name) = "large" -> normalizeVariantName name = "Large").
Proof.
  unfold normalizeVariantName.
  repeat split; intros E.
  - rewrite (token_not_inches "reg" _ eq_refl E).
    rewrite !test_whole_ci_lower by reflexivity. by rewrite E.
  - rewrite (token_not_inches "med" _ eq_refl E).
    rewrite !test_whole_ci_lower by reflexivity. by rewrite E.
  - rewrite (token_not_inches "large" _ eq_refl E).
    rewrite !test_whole_ci_lower by reflexivity. by rewrite E.
Qed.

Lemma normalizeVariantName_other (name : string) :
  (forall ds ws, ~ inchLabel ds ws (Js.trim name)) ->
  Js.toLowerCase (Js.trim name) <> "reg" ->
  Js.toLowerCase (Js.trim name) <> "med" ->
  Js.toLowerCase (Js.trim name) <> "large" ->
  normalizeVariantName name = Js.trim name.
Proof.
  intros NI R M L. unfold normalizeVariantName.
  destruct (match_inches (Js.trim name)) as [ds|] eqn:E.
  - apply match_inches_Some in E as [ws I];
      [by destruct (NI ds ws) | apply trim_head_ok | apply trim_last_ok].
  - rewrite !test_whole_ci_lower by reflexivity.
    by rewrite !(proj2 (String.eqb_neq _ _)).
Qed.

Lemma last_ok_snoc (x : string) (c : ascii) :
  last_ok (x +:+ String c EmptyString) = negb (Js.is_space c).
Proof.
  induction x as [|d x IH]; sapp; [done|].
  destruct x as [|e x]; sapp; [done|]. exact IH.
Qed.

(** C4 (as the code has it). The label is trimmed first.  Digits followed
    by a double quote become the digits followed by [ inches], also with
    white space between the digits and the quote; [reg], [med] and [large]
    in any letter case become [Regular], [Medium] and [Large]; every other
    label is returned trimmed, so it is returned unchanged exactly when it
    has no white space at either end. *)
Theorem C4_normalizeVariantName_trims :
  (forall ds,
     ds <> EmptyString -> all_chars Js.is_digit ds = true ->
     normalizeVariantName (ds +:+ String Js.dquote EmptyString)
     = ds +:+ " inches") /\
  (forall n,
     (Js.toLowerCase n = "reg" -> normalizeVariantName n = "Regular") /\
     (Js.toLowerCase n = "med" -> normalizeVariantName n = "Medium") /\
     (Js.toLowerCase n = "large" -> normalizeVariantName n = "Large")) /\
  (forall name ds ws,
     inchLabel ds ws (Js.trim name) ->
     normalizeVariantName name = ds +:+ " inches") /\
  (forall name,
     (Js.toLowerCase (Js.trim name) = "reg" ->
      normalizeVariantName name = "Regular") /\
     (Js.toLowerCase (Js.trim name) = "med" ->
      normalizeVariantName name = "Medium") /\
     (Js.toLowerCase (Js.trim name) = "large" ->
      normalizeVariantName name = "Large")) /\
  (forall name,
     (forall ds ws, ~ inchLabel ds ws (Js.trim name)) ->
     Js.toLowerCase (Js.trim name) <> "reg" ->
     Js.toLowerCase (Js.trim name) <> "med" ->
     Js.toLowerCase (Js.trim name) <> "large" ->
     normalizeVariantName name = Js.trim name /\
     (normalizeVariantName name = name <->
      head_ok name = true /\ last_ok name = true)).
Proof.
  split; [|split; [|split; [|split]]].
  - intros ds Hne D.
    apply (normalizeVariantName_inches _ ds EmptyString).
    assert (T : Js.trim (ds +:+ String Js.dquote EmptyString)
                = ds +:+ String Js.dquote EmptyString).
    { apply trim_id; [|by rewrite last_ok_snoc].
      destruct ds as [|d ds]; [done|]. sapp. simpl in D |- *.
      apply andb_true_iff in D as [Hd _]. by rewrite (digit_not_space _ Hd). }
    rewrite T. by repeat split.
  - intros n.
    assert (T : forall pat, all_chars isTokenLetter pat = true ->
                            Js.toLowerCase n = pat -> Js.trim n = n).
    { intros pat A E. destruct (lower_letters_trimmed pat n A E).
      by apply trim_id. }
    pose proof (normalizeVariantName_token n) as [R [M L]].
    repeat split; intros E.
    + apply R. by rewrite (T "reg" eq_refl E).
    + apply M. by rewrite (T "med" eq_refl E).
    + apply L. by rewrite (T "large" eq_refl E).
  - apply normalizeVariantName_inches.
  - apply normalizeVariantName_token.
  - intros name NI R M L.
    pose proof (normalizeVariantName_other name NI R M L) as E.
    split; [exact E|]. rewrite E. split.
    + intros <-. split; [apply trim_head_ok | apply trim_last_ok].
    + intros [? ?]. by apply trim_id.
Qed.

(** C4 as stated fails on a label with white space at an end: it is
    neither digits before a double quote nor one of the three tokens, and
    it is not returned unchanged.  Nor is a label with white space between
    the digits and the quote, or a padded token. *)
Lemma C4_padded_label_changes :
  (~ exists ds, " Half" = ds +:+ String Js.dquote EmptyString) /\
  Js.toLowerCase " Half" <> "reg" /\
  Js.toLowerCase " Half" <> "med" /\
  Js.toLowerCase " Half" <> "large" /\
  normalizeVariantName " Half" = "Half" /\
  normalizeVariantName " Half" <> " Half" /\
  (~ exists ds,
       all_chars Js.is_digit ds = true /\
       "7 " +:+ String Js.dquote EmptyString
       = ds +:+ String Js.dquote EmptyString) /\
  normalizeVariantName ("7 " +:+ String Js.dquote EmptyString) = "7 inches" /\
  Js.toLowerCase " reg" <> "reg" /\
  normalizeVariantName " reg" = "Regular".
Proof.
  split; [|split; [|split; [|split; [|split; [|split; [|split]]]]]];
    try discriminate; try reflexivity.
  - intros [ds E].
    destruct ds as [|? [|? [|? [|? [|? [|? ds]]]]]]; cbv in E; congruence.
  - intros [ds [D E]].
    destruct ds as [|a [|b ds]]; cbv in E; try congruence.
    injection E as <- <- _. vm_compute in D. discriminate.
  - repeat split; discriminate || reflexivity.
Qed.

(** ** The catalog excerpt, run *)

Example normalizeVariantName_catalog_labels :
  List.map normalizeVariantName
    [inches "7"; inches "10"; "Reg"; "Med"; "Large"; "Regular"; "Half"; "300ml"]
  = ["7 inches"; "10 inches"; "Regular"; "Medium"; "Large"; "Regular"; "Half";
     "300ml"].
Proof. reflexivity. Qed.

Example searchText_margherita :
  List.map searchText (menuItems sampleMenu)
  = ["chicken burger regular"; "cheese chicken burger regular";
     "margherita pizza 7 inches 8 inches 10 inches";
     "cheese corn pizza 7 inches 8 inches 10 inches";
     "french fries regular medium large";
     "veg cheese popcorn regular medium large"].
Proof. reflexivity. Qed.

Example baseFilteredMenu_sample :
  List.map MenuItem.id (menuItems (baseFilteredMenu sampleMenu sampleApp))
  = ["margherita-pizza"].
Proof. vm_compute. reflexivity. Qed.

Example baseFilteredMenu_sample_owner :
  List.map MenuItem.id
    (menuItems
       (baseFilteredMenu sampleMenu
          (ownerLogin (fun _ => EmptyString) "9110162059" sampleApp)))
  = ["margherita-pizza"; "cheese-corn-pizza"].
Proof. vm_compute. reflexivity. Qed.

Example repairSelectedCategories_sample :
  selectedCategoryIds (repairSelectedCategories sampleMenu sampleApp)
  = ["veg-pizzas"] /\
  List.map MenuSection.id
    (filteredMenu sampleMenu (repairSelectedCategories sampleMenu sampleApp))
  = ["veg-pizzas"].
Proof. vm_compute. split; reflexivity. Qed.

Example normalizeIndianMobile_spaced :
  normalizeIndianMobile "+91 98765-43210" = Some "9876543210" /\
  normalizeIndianMobile "929876543210" = None /\
  normalizeIndianMobile "19876543210" = None.
Proof. repeat split. Qed.

Example initialAvailability_plain_values :
  initialAvailability (fun _ => Returns JNull) (storageWith "null") = ∅ /\
  initialAvailability (fun _ => Returns (JStr "x")) (storageWith "x") = ∅ /\
  initialAvailability (fun _ => Throws) (storageWith "{") = ∅ /\
  initialAvailability (fun _ => Throws) emptyStorage = ∅.
Proof. repeat split. Qed.

(** * Further properties *)

(** ** What the pipeline shows *)

Lemma menuItems_elem (menu : list MenuSection) (it : MenuItem) :
  it ∈ menuItems menu <-> exists s, s ∈ menu /\ it ∈ MenuSection.items s.
Proof.
  unfold menuItems. rewrite list_elem_of_In, in_flat_map.
  split; intros [s [? ?]]; exists s; by rewrite ?list_elem_of_In in *.
Qed.

Lemma filteredMenu_elem_base (MENU : list MenuSection) (app : App)
    (s : MenuSection) :
  s ∈ filteredMenu MENU app -> s ∈ baseFilteredMenu MENU app.
Proof.
  unfold filteredMenu.
  destruct (length (selectedCategoryIds app) =? 0)%nat; [done|].
  rewrite !list_elem_of_In, filter_In. tauto.
Qed.

Lemma passes_of_base (MENU : list MenuSection) (app : App) (it : MenuItem) :
  it ∈ menuItems (baseFilteredMenu MENU app) ->
  it ∈ menuItems MENU /\
  passesAvailability app it = true /\
  passesSearch app it = true /\ passesDiet app it = true.
Proof.
  rewrite baseFilteredMenu_stageBy, menuItems_stageBy.
  rewrite !list_elem_of_In, filter_In, !andb_true_iff. tauto.
Qed.

(** A viewer who does not include unavailable items never sees one: every
    item of the visible sections is available. *)
Theorem filteredMenu_hides_unavailable :
  forall (MENU : list MenuSection) (app : App),
    includeUnavailable app = false ->
    Forall
      (fun it => isAvailable (availability app) (MenuItem.id it) = true)
      (menuItems (filteredMenu MENU app)).
Proof.
  intros MENU app Hincl. apply Forall_forall. intros it Hit.
  apply menuItems_elem in Hit as [s [Hs Hin]].
  apply filteredMenu_elem_base in Hs.
  assert (Hb : it ∈ menuItems (baseFilteredMenu MENU app))
    by (apply menuItems_elem; eauto).
  apply passes_of_base in Hb as [_ [Ha _]].
  unfold passesAvailability in Ha. unfold includeUnavailable in Hincl.
  rewrite Hincl, orb_false_r in Ha. exact Ha.
Qed.

(** On the catalog excerpt, with Cheese Corn Pizza marked unavailable. *)
Lemma filteredMenu_hides_unavailable_witness :
  includeUnavailable sampleApp = false /\
  Forall
    (fun it => isAvailable (availability sampleApp) (MenuItem.id it) = true)
    (menuItems (filteredMenu sampleMenu sampleApp)).
Proof.
  split; [reflexivity|].
  apply (filteredMenu_hides_unavailable sampleMenu sampleApp). reflexivity.
Defined.

Lemma List_map_sublist {A B : Type} (f : A -> B) (l k : list A) :
  l `sublist_of` k -> List.map f l `sublist_of` List.map f k.
Proof. induction 1; simpl; by constructor. Qed.

Lemma stageBy_ids_sublist (p : MenuItem -> bool) (menu : list MenuSection) :
  List.map MenuSection.id (stageBy p menu)
  `sublist_of` List.map MenuSection.id menu.
Proof.
  induction menu as [|s menu IH]; [constructor|].
  rewrite stageBy_cons.
  destruct (List.filter p (MenuSection.items s)); simpl; by constructor.
Qed.

(** Every visible section is a section of the catalog with the same
    identifier, title and subtitle, holds a non-empty sub-list of that
    section's items, and the visible sections keep the catalog order. *)
Theorem filteredMenu_sections_from_catalog :
  forall (MENU : list MenuSection) (app : App),
    Forall
      (fun s =>
         MenuSection.items s <> [] /\
         exists s0,
           s0 ∈ MENU /\
           MenuSection.id s = MenuSection.id s0 /\
           MenuSection.title s = MenuSection.title s0 /\
           MenuSection.subtitle s = MenuSection.subtitle s0 /\
           MenuSection.items s `sublist_of` MenuSection.items s0)
      (filteredMenu MENU app) /\
    List.map MenuSection.id (filteredMenu MENU app)
    `sublist_of` List.map MenuSection.id MENU.
Proof.
  intros MENU app. split.
  - apply Forall_forall. intros s Hs. apply filteredMenu_elem_base in Hs.
    rewrite baseFilteredMenu_stageBy in Hs.
    apply elem_of_stageBy in Hs as [s0 [H0 [-> Hne]]].
    split; [done|]. exists s0. repeat split; [done|].
    apply List_filter_sublist.
  - transitivity (List.map MenuSection.id (baseFilteredMenu MENU app)).
    + apply List_map_sublist. unfold filteredMenu.
      destruct (length (selectedCategoryIds app) =? 0)%nat; [done|].
      apply List_filter_sublist.
    + rewrite baseFilteredMenu_stageBy. apply stageBy_ids_sublist.
Qed.

(** ** Eligible categories and the repair effect *)

Lemma foodTypeSectionIds_setSelectedCategoryIds
    (MENU : list MenuSection) (f : list string -> list string) (app : App) :
  foodTypeSectionIds MENU (setSelectedCategoryIds f app)
  = foodTypeSectionIds MENU app.
Proof. reflexivity. Qed.

Lemma availableSectionIds_setSelectedCategoryIds
    (MENU : list MenuSection) (f : list string -> list string) (app : App) :
  availableSectionIds MENU (setSelectedCategoryIds f app)
  = availableSectionIds MENU app.
Proof. reflexivity. Qed.

Lemma available_dietEligible (MENU : list MenuSection) (app : App)
    (id : string) :
  id ∈ availableSectionIds MENU app -> dietEligible MENU app id.
Proof.
  intros [s [Hs Hid]]%elem_of_availableSectionIds.
  rewrite baseFilteredMenu_stageBy in Hs.
  apply elem_of_stageBy in Hs as [s0 [H0 [-> Hne]]]. simpl in Hid.
  destruct (List.filter
              (fun it => passesAvailability app it
                         && (passesSearch app it && passesDiet app it))
              (MenuSection.items s0)) as [|it its] eqn:F; [done|].
  assert (Hit : In it (it :: its)) by (left; reflexivity).
  rewrite <- F, filter_In, !andb_true_iff in Hit.
  destruct Hit as [Hin [Ha [_ Hd]]].
  assert (Hdiet : forall s1,
             it ∈ MenuSection.items s1 ->
             match foodFilter app with
             | ALL => True
             | VEG => exists i, i ∈ MenuSection.items s1 /\ MenuItem.isVeg i = true
             | NONVEG =>
                 exists i, i ∈ MenuSection.items s1 /\ MenuItem.isVeg i = false
             end).
  { intros s1 H1. unfold passesDiet in Hd.
    destruct (foodFilter app); [done| |]; exists it; split; try done.
    by apply negb_true_iff. }
  unfold dietEligible, menuByAvailability.
  unfold passesAvailability in Ha. fold (includeUnavailable app) in Ha.
  destruct (includeUnavailable app).
  - exists s0. repeat split; [done..|]. apply Hdiet. by apply list_elem_of_In.
  - rewrite orb_false_r in Ha.
    set (av := fun i => isAvailable (availability app) (MenuItem.id i)).
    assert (Hf : In it (List.filter av (MenuSection.items s0)))
      by (apply filter_In; done).
    exists (MenuSection.with_items s0 (List.filter av (MenuSection.items s0))).
    split; [|split; [done|]].
    + fold (stageBy av MENU). apply elem_of_stageBy. exists s0.
      repeat split; [done|]. intros E. by rewrite E in Hf.
    + apply Hdiet. simpl. by apply list_elem_of_In.
Qed.

(** A category with results under the base filter always applies to the
    diet filter, so the repair effect keeps exactly the selected categories
    that have results. *)
Theorem repair_keeps_categories_with_results :
  forall (MENU : list MenuSection) (app : App),
    availableSectionIds MENU app ⊆ foodTypeSectionIds MENU app /\
    selectedCategoryIds (repairSelectedCategories MENU app)
    = List.filter
        (fun id => bool_decide (id ∈ availableSectionIds MENU app))
        (selectedCategoryIds app).
Proof.
  intros MENU app.
  assert (S : availableSectionIds MENU app ⊆ foodTypeSectionIds MENU app).
  { intros id H. apply elem_of_foodTypeSectionIds.
    by apply available_dietEligible. }
  split; [exact S|]. unfold repairSelectedCategories.
  destruct (length (selectedCategoryIds app) =? 0)%nat eqn:L.
  - destruct (selectedCategoryIds app); [done|discriminate].
  - unfold setSelectedCategoryIds. cbn [selectedCategoryIds].
    apply filter_ext. intros id.
    destruct (bool_decide_reflect (id ∈ availableSectionIds MENU app)) as [H|H];
      [|done].
    simpl. apply bool_decide_eq_true. by apply S.
Qed.

Lemma List_filter_idem {A : Type} (f : A -> bool) (l : list A) :
  List.filter f (List.filter f l) = List.filter f l.
Proof.
  rewrite List_filter_filter. apply filter_ext. intros x. by destruct (f x).
Qed.

(** The repair effect is idempotent: a repaired selection needs no further
    repair. *)
Theorem repairSelectedCategories_idempotent :
  forall (MENU : list MenuSection) (app : App),
    repairSelectedCategories MENU (repairSelectedCategories MENU app)
    = repairSelectedCategories MENU app.
Proof.
  intros MENU app. unfold repairSelectedCategories at 2.
  destruct (length (selectedCategoryIds app) =? 0)%nat eqn:L.
  - unfold repairSelectedCategories. by rewrite L.
  - unfold repairSelectedCategories.
    rewrite availableSectionIds_setSelectedCategoryIds,
      foodTypeSectionIds_setSelectedCategoryIds, L.
    destruct (length (selectedCategoryIds (setSelectedCategoryIds _ app)) =? 0)%nat;
      [done|].
    unfold setSelectedCategoryIds. cbn [selectedCategoryIds query foodFilter
      toast ownerMobile ownerLoginOpen showUnavailableForOwner availability
      localStorage].
    by rewrite List_filter_idem.
Qed.

Lemma with_items_same (s : MenuSection) :
  MenuSection.with_items s (MenuSection.items s) = s.
Proof. by destruct s. Qed.

Lemma List_filter_all {A : Type} (f : A -> bool) (l : list A) :
  (forall x, In x l -> f x = true) -> List.filter f l = l.
Proof.
  induction l as [|x l IH]; simpl; [done|]. intros H.
  rewrite (H x) by auto. f_equal. apply IH. auto.
Qed.

Lemma stageBy_all (p : MenuItem -> bool) (menu : list MenuSection) :
  (forall it, it ∈ menuItems menu -> p it = true) ->
  Forall (fun s => MenuSection.items s <> []) menu ->
  stageBy p menu = menu.
Proof.
  induction menu as [|s menu IH]; [done|]. intros Hp Hne.
  apply Forall_cons in Hne as [Hs Hne]. rewrite stageBy_cons.
  assert (F : List.filter p (MenuSection.items s) = MenuSection.items s).
  { apply List_filter_all. intros x Hx. apply Hp, menuItems_elem.
    exists s. split; [left|by apply list_elem_of_In]. }
  rewrite F, IH; [|intros it Hit|done].
  - destruct (MenuSection.items s) as [|x xs] eqn:I; [done|].
    by rewrite <- I, with_items_same.
  - apply Hp. apply menuItems_elem in Hit as [s1 [? ?]].
    apply menuItems_elem. exists s1. split; [by right|done].
Qed.

(** With an empty search, the diet filter on All, no category selected and
    no catalog item marked unavailable, the visible sections are the
    catalog itself, provided no catalog section is empty. *)
Theorem filteredMenu_no_filters_is_catalog :
  forall (MENU : list MenuSection) (app : App),
    Js.trim (query app) = EmptyString ->
    foodFilter app = ALL ->
    selectedCategoryIds app = [] ->
    (forall it, it ∈ menuItems MENU ->
                isAvailable (availability app) (MenuItem.id it) = true) ->
    Forall (fun s => MenuSection.items s <> []) MENU ->
    filteredMenu MENU app = MENU.
Proof.
  intros MENU app Hq Hf Hs Ha Hne. unfold filteredMenu. rewrite Hs. simpl.
  rewrite baseFilteredMenu_stageBy. apply stageBy_all; [|done].
  intros it Hit. unfold passesAvailability, passesSearch, passesDiet.
  rewrite (Ha it Hit), Hq, Hf. simpl.
  by rewrite includes_empty, orb_true_r.
Qed.

(** The first render of the catalog excerpt over an empty overlay. *)
Lemma filteredMenu_no_filters_is_catalog_witness :
  filteredMenu sampleMenu (initialApp ∅ emptyStorage) = sampleMenu.
Proof.
  apply (filteredMenu_no_filters_is_catalog sampleMenu
           (initialApp ∅ emptyStorage));
    [reflexivity | reflexivity | reflexivity | intros it _; reflexivity |].
  repeat constructor; discriminate.
Defined.

Lemma lower_char_space (c : ascii) :
  Js.is_space (Js.lower_char c) = Js.is_space c.
Proof. by_ascii c. Qed.

Lemma lower_char_idem (c : ascii) :
  Js.lower_char (Js.lower_char c) = Js.lower_char c.
Proof. by_ascii c. Qed.

Lemma toLowerCase_idem (s : string) :
  Js.toLowerCase (Js.toLowerCase s) = Js.toLowerCase s.
Proof. induction s; simpl; [done|]. by rewrite lower_char_idem, IHs. Qed.

Lemma toLowerCase_trimStart (s : string) :
  Js.trimStart (Js.toLowerCase s) = Js.toLowerCase (Js.trimStart s).
Proof.
  induction s as [|c s IH]; simpl; [done|]. rewrite lower_char_space.
  by destruct (Js.is_space c).
Qed.

Lemma toLowerCase_trimEnd (s : string) :
  Js.trimEnd (Js.toLowerCase s) = Js.toLowerCase (Js.trimEnd s).
Proof.
  induction s as [|c s IH]; simpl; [done|]. rewrite IH, lower_char_space.
  destruct (Js.trimEnd s); simpl; [|done]. by destruct (Js.is_space c).
Qed.

Lemma toLowerCase_trim (s : string) :
  Js.trim (Js.toLowerCase s) = Js.toLowerCase (Js.trim s).
Proof. unfold Js.trim. by rewrite toLowerCase_trimStart, toLowerCase_trimEnd. Qed.

Lemma trimEnd_app_spaces (s ws : string) :
  all_chars Js.is_space ws = true -> Js.trimEnd (s +:+ ws) = Js.trimEnd s.
Proof.
  intros W.
  assert (Z : Js.trimEnd ws = EmptyString).
  { clear s. induction ws as [|c ws IH]; [done|]. simpl in *.
    apply andb_true_iff in W as [Hc W]. by rewrite (IH W), Hc. }
  induction s as [|c s IH]; sapp; [done|]. simpl. by rewrite IH.
Qed.

Lemma trim_padded (ws1 s ws2 : string) :
  all_chars Js.is_space ws1 = true -> all_chars Js.is_space ws2 = true ->
  Js.trim (ws1 +:+ s +:+ ws2) = Js.trim s.
Proof.
  intros W1 W2. unfold Js.trim. rewrite (trimStart_app_spaces _ _ W1).
  destruct (trimStart_decomp s) as [w [E Hw]].
  destruct (Js.trimStart s) as [|c r] eqn:T.
  - apply trimStart_spaces in T.
    assert (all_chars Js.is_space (s +:+ ws2) = true) as A.
    { clear -T W2. induction s as [|c s IH]; sapp; [done|]. simpl in *.
      apply andb_true_iff in T as [-> T]. by apply IH. }
    apply trimStart_spaces in A. by rewrite A.
  - assert (Js.trimStart (s +:+ ws2) = String c r +:+ ws2) as ->.
    { rewrite E at 1. rewrite append_assoc, (trimStart_app_spaces _ _ Hw).
      sapp. simpl. pose proof (trimStart_head_ok s) as H. rewrite T in H.
      simpl in H. by destruct (Js.is_space c). }
    by apply trimEnd_app_spaces.
Qed.

Lemma baseFilteredMenu_query (MENU : list MenuSection) (app : App)
    (q1 q2 : string) :
  Js.toLowerCase (Js.trim q1) = Js.toLowerCase (Js.trim q2) ->
  baseFilteredMenu MENU (setQuery q1 app)
  = baseFilteredMenu MENU (setQuery q2 app).
Proof.
  intros E. unfold baseFilteredMenu. cbn [query setQuery]. by rewrite E.
Qed.

(** The search ignores letter case and white space around the query:
    folding the case of the query and padding it with white space gives the
    same base-filtered sections. *)
Theorem search_ignores_case_and_padding :
  forall (MENU : list MenuSection) (app : App) (q ws1 ws2 : string),
    all_chars Js.is_space ws1 = true ->
    all_chars Js.is_space ws2 = true ->
    baseFilteredMenu MENU (setQuery (ws1 +:+ Js.toLowerCase q +:+ ws2) app)
    = baseFilteredMenu MENU (setQuery q app).
Proof.
  intros MENU app q ws1 ws2 W1 W2. apply baseFilteredMenu_query.
  by rewrite (trim_padded _ _ _ W1 W2), toLowerCase_trim, toLowerCase_idem.
Qed.

(** The query PIZZA, and the query pizza between two blanks. *)
Lemma search_ignores_case_and_padding_witness :
  baseFilteredMenu sampleMenu (setQuery ("  " +:+ Js.toLowerCase "PIZZA" +:+ " ") sampleApp)
  = baseFilteredMenu sampleMenu (setQuery "PIZZA" sampleApp).
Proof.
  apply (search_ignores_case_and_padding sampleMenu sampleApp "PIZZA" "  " " ");
    reflexivity.
Defined.

(** For a viewer who does not include unavailable items, marking an item
    unavailable removes the items with that identifier from the
    base-filtered result and nothing else.  The identifier is any but
    [__proto__], under which the update may store nothing. *)
Theorem mark_unavailable_hides_only_that_item :
  forall (MENU : list MenuSection) (app : App) (id : string),
    includeUnavailable app = false ->
    id <> "__proto__" ->
    menuItems
      (baseFilteredMenu MENU (setAvailability (setItemAvailable id false) app))
    = List.filter (fun it => negb (String.eqb (MenuItem.id it) id))
        (menuItems (baseFilteredMenu MENU app)).
Proof.
  intros MENU app id Hincl Hid.
  rewrite !baseFilteredMenu_stageBy, !menuItems_stageBy, List_filter_filter.
  apply filter_ext. intros it.
  unfold passesAvailability, passesSearch, passesDiet, setAvailability, ownerMode.
  cbn [availability ownerMobile showUnavailableForOwner query foodFilter].
  unfold includeUnavailable, ownerMode in Hincl. rewrite Hincl, !orb_false_r.
  rewrite setItemAvailable_false by (by left).
  unfold isAvailable.
  destruct (String.eqb_spec (MenuItem.id it) id) as [->|Hne].
  - rewrite lookup_insert_eq. simpl. by rewrite andb_false_r.
  - rewrite lookup_insert_ne by done. simpl. by rewrite andb_true_r.
Qed.

(** Margherita Pizza is marked unavailable on the catalog excerpt, where
    it passed the filters before. *)
Lemma mark_unavailable_hides_only_that_item_witness :
  includeUnavailable sampleApp = false /\
  List.map MenuItem.id (menuItems (baseFilteredMenu sampleMenu sampleApp))
  = ["margherita-pizza"] /\
  menuItems
    (baseFilteredMenu sampleMenu
       (setAvailability (setItemAvailable "margherita-pizza" false) sampleApp))
  = List.filter
      (fun it => negb (String.eqb (MenuItem.id it) "margherita-pizza"))
      (menuItems (baseFilteredMenu sampleMenu sampleApp)).
Proof.
  split; [reflexivity|]. split; [vm_compute; reflexivity|].
  apply (mark_unavailable_hides_only_that_item sampleMenu sampleApp
           "margherita-pizza").
  - reflexivity.
  - discriminate.
Defined.

(** ** Category selection *)

Lemma List_filter_NoDup {A : Type} (f : A -> bool) (l : list A) :
  NoDup l -> NoDup (List.filter f l).
Proof.
  induction 1 as [|x l Hx _ IH]; simpl; [constructor|].
  destruct (f x); [|done]. constructor; [|done].
  rewrite list_elem_of_In, filter_In, <- list_elem_of_In. tauto.
Qed.

(** Tapping a category flips its membership in the selection and leaves
    every other category as it was; a selection without repeats stays
    without repeats; tapping twice a category that was not selected gives
    the selection back. *)
Theorem toggleCategory_flips_one :
  forall (id : string) (app : App),
    (id ∈ selectedCategoryIds (toggleCategory id app) <->
     id ∉ selectedCategoryIds app) /\
    (forall j, j <> id ->
       (j ∈ selectedCategoryIds (toggleCategory id app) <->
        j ∈ selectedCategoryIds app)) /\
    (NoDup (selectedCategoryIds app) ->
     NoDup (selectedCategoryIds (toggleCategory id app))) /\
    (id ∉ selectedCategoryIds app ->
     selectedCategoryIds (toggleCategory id (toggleCategory id app))
     = selectedCategoryIds app).
Proof.
  intros id app. unfold toggleCategory, setSelectedCategoryIds.
  cbn [selectedCategoryIds].
  set (prev := selectedCategoryIds app).
  assert (R : forall j, j ∈ List.filter (fun x => negb (String.eqb x id)) prev
                        <-> j ∈ prev /\ j <> id).
  { intros j. rewrite !list_elem_of_In, filter_In, negb_true_iff.
    by rewrite String.eqb_neq. }
  destruct (bool_decide_reflect (id ∈ prev)) as [Hin|Hout].
  - split; [|split; [|split]].
    + rewrite R. tauto.
    + intros j Hj. rewrite R. tauto.
    + apply List_filter_NoDup.
    + done.
  - split; [|split; [|split]].
    + rewrite elem_of_app, list_elem_of_singleton. tauto.
    + intros j Hj. rewrite elem_of_app, list_elem_of_singleton. tauto.
    + intros N. apply NoDup_app. split; [done|]. split.
      * intros x Hx ->%list_elem_of_singleton. done.
      * apply NoDup_singleton.
    + intros _.
      assert (id ∈ prev ++ [id])%list as Hin
        by (rewrite elem_of_app, list_elem_of_singleton; tauto).
      rewrite (bool_decide_eq_true_2 _ Hin).
      rewrite List.filter_app. simpl. rewrite String.eqb_refl. simpl.
      rewrite app_nil_r. apply List_filter_all. intros x Hx.
      apply negb_true_iff, String.eqb_neq. intros ->.
      by apply Hout, list_elem_of_In.
Qed.

(** ** Active section *)

Lemma elem_of_visibleSectionIds (MENU : list MenuSection) (app : App)
    (id : string) :
  id ∈ visibleSectionIds MENU app <->
  id ∈ List.map MenuSection.id (filteredMenu MENU app).
Proof. unfold visibleSectionIds. by rewrite elem_of_list_to_set. Qed.

(** After the effect that repairs the active section, the active section
    is a visible one whenever some section is visible; an active section
    that is visible, and any active section when nothing is visible, is
    left alone. *)
Theorem repairActiveSection_visible :
  forall (MENU : list MenuSection) (app : App) (active : string),
    (filteredMenu MENU app <> [] ->
     repairActiveSection MENU app active ∈ visibleSectionIds MENU app) /\
    (active ∈ visibleSectionIds MENU app ->
     repairActiveSection MENU app active = active) /\
    (filteredMenu MENU app = [] ->
     repairActiveSection MENU app active = active) /\
    (filteredMenu MENU app <> [] ->
     active ∉ visibleSectionIds MENU app ->
     Some (repairActiveSection MENU app active)
     = MenuSection.id <$> head (filteredMenu MENU app)).
Proof.
  intros MENU app active. unfold repairActiveSection.
  destruct (bool_decide_reflect (active ∈ visibleSectionIds MENU app))
    as [Hin|Hout]; simpl; rewrite ?andb_false_r, ?andb_true_r.
  - repeat split; try done.
  - pose proof (elem_of_visibleSectionIds MENU app) as V.
    destruct (filteredMenu MENU app) as [|s rest] eqn:F; simpl.
    + repeat split; done.
    + repeat split; try done. intros _. apply V. simpl. left.
Qed.

(** Whatever the positions of the elements, [onScroll] makes a visible
    section the active one, and keeps the active section when nothing is
    visible. *)
Theorem onScroll_picks_visible_section :
  forall (MENU : list MenuSection) (app : App)
         (rectTop : string -> option float) (active : string),
    (filteredMenu MENU app = [] ->
     onScroll MENU app rectTop active = active) /\
    (filteredMenu MENU app <> [] ->
     onScroll MENU app rectTop active ∈ visibleSectionIds MENU app).
Proof.
  intros MENU app rectTop active. unfold onScroll.
  pose proof (elem_of_visibleSectionIds MENU app) as V.
  destruct (filteredMenu MENU app) as [|s rest] eqn:F; simpl length.
  - split; done.
  - split; [done|]. intros _. apply V. cbn [Nat.eqb].
    set (mk := fun s0 : MenuSection =>
                 match rectTop (MenuSection.id s0) with
                 | Some t => {| entryId := MenuSection.id s0; entryTop := t |}
                 | None => {| entryId := MenuSection.id s0; entryTop := infinity |}
                 end).
    assert (Hid : forall s0, entryId (mk s0) = MenuSection.id s0).
    { intros s0. unfold mk. by destruct (rectTop (MenuSection.id s0)). }
    set (step := fun (acc : string * float) (e : ScrollEntry) =>
                   if PrimFloat.leb (entryTop e) 160
                      && PrimFloat.ltb acc.2 (entryTop e)
                   then (entryId e, entryTop e) else acc).
    assert (Inv : forall (l : list MenuSection) (acc : string * float)
                         (ids : list string),
               acc.1 ∈ ids ->
               (forall s0, s0 ∈ l -> MenuSection.id s0 ∈ ids) ->
               (fold_left step (List.map mk l) acc).1 ∈ ids).
    { induction l as [|x l IH]; intros acc ids Hacc Hl; [done|].
      simpl. apply IH.
      - unfold step. destruct (_ && _); [|done]. simpl. rewrite Hid.
        apply Hl. left.
      - intros s0 H0. apply Hl. by right. }
    refine (Inv (s :: rest) (entryId (mk s), neg_infinity)
              (List.map MenuSection.id (s :: rest)) _ _).
    + cbn [List.map fst]. rewrite Hid. left.
    + intros s0 H0. apply list_elem_of_In, in_map. by apply list_elem_of_In.
Qed.

(** ** Category navigation *)

Section NavigationOrder.

Variable localeCompare : string -> string -> Z.

Lemma insertSection_perm (x : MenuSection) (l : list MenuSection) :
  insertSection localeCompare x l ≡ₚ x :: l.
Proof.
  induction l as [|y l IH]; simpl; [done|].
  destruct (compareSections localeCompare x y <=? 0)%Z; [done|].
  rewrite IH. apply Permutation_swap.
Qed.

Lemma sortSections_perm (l : list MenuSection) :
  sortSections localeCompare l ≡ₚ l.
Proof.
  induction l as [|x l IH]; simpl; [done|].
  by rewrite insertSection_perm, IH.
Qed.

Lemma compareSections_rank (x y : MenuSection) :
  rankOf (MenuSection.id x) <> rankOf (MenuSection.id y) ->
  compareSections localeCompare x y
  = (rankOf (MenuSection.id x) - rankOf (MenuSection.id y))%Z.
Proof.
  intros H. unfold compareSections.
  by destruct (Z.eqb_spec (rankOf (MenuSection.id x)) (rankOf (MenuSection.id y))).
Qed.

Lemma insertSection_sorted (x : MenuSection) (l : list MenuSection) :
  StronglySorted rankLt l ->
  Forall (fun y => rankOf (MenuSection.id x) <> rankOf (MenuSection.id y)) l ->
  StronglySorted rankLt (insertSection localeCompare x l).
Proof.
  induction 1 as [|y l S IH Hy]; intros D; simpl.
  - repeat constructor.
  - apply Forall_cons in D as [Dy D].
    rewrite (compareSections_rank _ _ Dy).
    destruct (Z.leb_spec (rankOf (MenuSection.id x) - rankOf (MenuSection.id y)) 0).
    + assert (Lt : rankLt x y) by (unfold rankLt; lia).
      constructor; [by constructor|]. constructor; [done|].
      eapply Forall_impl; [exact Hy|]. unfold rankLt in *. intros; lia.
    + constructor; [by apply IH|].
      rewrite insertSection_perm. constructor; [unfold rankLt; lia|done].
Qed.

Lemma sortSections_sorted (l : list MenuSection) :
  NoDup (List.map (fun s => rankOf (MenuSection.id s)) l) ->
  StronglySorted rankLt (sortSections localeCompare l).
Proof.
  induction l as [|x l IH]; simpl; [constructor|].
  intros [Hx N]%NoDup_cons. apply insertSection_sorted; [by apply IH|].
  rewrite sortSections_perm. apply Forall_forall. intros y Hy E.
  apply Hx. rewrite E. apply list_elem_of_In.
  apply (in_map (fun s => rankOf (MenuSection.id s))). by apply list_elem_of_In.
Qed.

Lemma insertSection_rank_only (other : string -> string -> Z)
    (x : MenuSection) (k : list MenuSection) :
  Forall (fun y => rankOf (MenuSection.id x) <> rankOf (MenuSection.id y)) k ->
  insertSection other x k = insertSection localeCompare x k.
Proof.
  induction 1 as [|y k Dy D IHk]; simpl; [done|].
  rewrite IHk. unfold compareSections.
  by destruct (Z.eqb_spec (rankOf (MenuSection.id x))
                 (rankOf (MenuSection.id y))).
Qed.

Lemma sortSections_rank_only (other : string -> string -> Z)
    (l : list MenuSection) :
  NoDup (List.map (fun s => rankOf (MenuSection.id s)) l) ->
  sortSections other l = sortSections localeCompare l.
Proof.
  induction l as [|x l IH]; simpl; [done|].
  intros [Hx N]%NoDup_cons. rewrite (IH N).
  apply insertSection_rank_only.
  rewrite sortSections_perm. apply Forall_forall. intros y Hy E.
  apply Hx. rewrite E. apply list_elem_of_In.
  apply (in_map (fun s => rankOf (MenuSection.id s))).
  by apply list_elem_of_In.
Qed.

(** The category navigation lists every catalog section exactly once.
    When the sections have pairwise different ranks in the preferred order,
    the list runs by increasing rank and the titles play no part. *)
Theorem categoryNavSections_order :
  forall (MENU : list MenuSection),
    categoryNavSections localeCompare MENU ≡ₚ MENU /\
    (NoDup (List.map (fun s => rankOf (MenuSection.id s)) MENU) ->
     StronglySorted rankLt (categoryNavSections localeCompare MENU) /\
     forall other, categoryNavSections other MENU
                   = categoryNavSections localeCompare MENU).
Proof.
  intros MENU. unfold categoryNavSections. split; [apply sortSections_perm|].
  intros N. split; [by apply sortSections_sorted|].
  intros other. by apply sortSections_rank_only.
Qed.


End NavigationOrder.

Example categoryNavSections_sample :
  List.map MenuSection.id (categoryNavSections (fun _ _ => 0%Z) sampleMenu)
  = ["veg-pizzas"; "chicken-burgers"; "fries"] /\
  List.map rankOf preferredOrder
  = [0; 1; 2; 3; 4; 5; 6; 7; 8; 9; 10; 11; 12; 13]%Z /\
  rankOf "soups" = 999%Z.
Proof. vm_compute. repeat split. Qed.

(** ** Owner session across reloads *)

Section SessionRestore.

Variable JSON_parse : string -> outcome json.

(** Restoring the session at startup never makes an owner of a number
    outside the allow-list: the session is left as it was, or becomes a
    number of the allow-list.  Apart from the session and the stored
    session entry, the state is untouched. *)
Theorem restoreOwnerSession_only_allow_listed :
  forall (app : App),
    (ownerMobile (restoreOwnerSession JSON_parse app) = ownerMobile app \/
     exists m, ownerMobile (restoreOwnerSession JSON_parse app) = Some m /\
               m ∈ OWNER_MOBILES) /\
    availability (restoreOwnerSession JSON_parse app) = availability app /\
    selectedCategoryIds (restoreOwnerSession JSON_parse app)
    = selectedCategoryIds app /\
    (forall key, key <> OWNER_SESSION_KEY ->
       entries (localStorage (restoreOwnerSession JSON_parse app)) !! key
       = entries (localStorage app) !! key).
Proof.
  intros app. unfold restoreOwnerSession, getItem, removeItem.
  destruct (accessible (localStorage app)) eqn:A; simpl; [|by auto].
  destruct (entries (localStorage app) !! OWNER_SESSION_KEY) as [raw|];
    simpl; [|by auto].
  destruct (Js.truthy_string raw); simpl; [|by auto].
  destruct (JSON_parse raw) as [parsed|]; simpl; [|by auto].
  destruct (negb (truthy parsed) || negb (String.eqb (typeof parsed) "object"));
    simpl; [by auto|].
  destruct (ownProperties parsed !! "mobile") as [[| | |mobile| |]|];
    simpl; try by auto.
  destruct (bool_decide_reflect (mobile ∈ OWNER_MOBILES)) as [Hin|Hout]; simpl.
  - repeat split; try done. right. eauto.
  - repeat split; try auto. intros key Hk. by rewrite lookup_delete_ne.
Qed.

(** A stored session whose number is a string outside the allow-list is
    discarded at startup: nobody is logged in by it and its entry is
    removed from the storage. *)
Theorem restoreOwnerSession_discards_stale :
  forall (app : App) (raw : string) (parsed : json) (mobile : string),
    getItem (localStorage app) OWNER_SESSION_KEY = Returns (Some raw) ->
    raw <> EmptyString ->
    JSON_parse raw = Returns parsed ->
    truthy parsed = true -> typeof parsed = "object" ->
    ownProperties parsed !! "mobile" = Some (JStr mobile) ->
    mobile ∉ OWNER_MOBILES ->
    ownerMobile (restoreOwnerSession JSON_parse app) = ownerMobile app /\
    entries (localStorage (restoreOwnerSession JSON_parse app))
      !! OWNER_SESSION_KEY = None.
Proof.
  intros app raw parsed mobile G Hraw P T Ty M Hout.
  unfold restoreOwnerSession. rewrite G. simpl.
  destruct (Js.truthy_string raw) eqn:Tr;
    [|by apply truthy_string_false in Tr].
  simpl. rewrite P. simpl. rewrite T, Ty, M. simpl.
  rewrite (bool_decide_eq_false_2 _ Hout). unfold removeItem.
  unfold getItem in G. destruct (accessible (localStorage app)); [|done].
  simpl. split; [done|]. apply lookup_delete_eq.
Qed.

(** Logging out and reloading the page leaves nobody logged in, whatever
    the storage held and whether or not the browser lets the page use it. *)
Theorem logout_then_restore_stays_out :
  forall (app : App),
    ownerMobile (ownerLogout app) = None /\
    ownerMode (ownerLogout app) = false /\
    ownerMobile (restoreOwnerSession JSON_parse (ownerLogout app)) = None.
Proof.
  intros app. repeat split.
  unfold restoreOwnerSession, ownerLogout, getItem, removeItem.
  cbn [localStorage ownerMobile].
  destruct (accessible (localStorage app)) eqn:A; simpl; rewrite ?A; simpl.
  - by rewrite lookup_delete_eq.
  - done.
Qed.

End SessionRestore.

(** A successful login survives a reload: when the browser lets the page
    use the storage and the host reads back the session object it wrote,
    restoring from the storage left by [ownerLogin], with no session in
    memory, logs the same allow-listed number in again. *)
Theorem login_then_restore_round_trip :
  forall (JSON_parse : string -> outcome json)
         (JSON_stringify : json -> string) (app : App) (m : string),
    m ∈ OWNER_MOBILES ->
    accessible (localStorage app) = true ->
    readsBack JSON_parse JSON_stringify (JObj {[ "mobile" := JStr m ]}) ->
    ownerMobile
      (restoreOwnerSession JSON_parse
         (setOwnerMobile None (ownerLogin JSON_stringify m app)))
    = Some m.
Proof.
  intros JSON_parse JSON_stringify app m Hin A [Hne P].
  unfold restoreOwnerSession, setOwnerMobile, ownerLogin, getItem, setItem.
  cbn [localStorage ownerMobile]. rewrite A. simpl.
  rewrite lookup_insert_eq. simpl.
  destruct (Js.truthy_string _) eqn:T; [|by apply truthy_string_false in T].
  simpl. rewrite P. simpl. rewrite lookup_singleton_eq. simpl.
  by rewrite (bool_decide_eq_true_2 _ Hin).
Qed.

(** ** Persisting the overlay *)

(** What the persisting effect writes is what the next startup loads.
    The state hook holds an object or an array, [current], whose own
    entries are the overlay; when the browser lets the page use the storage
    and the host reads back the text it wrote for [current], the initial
    overlay of the next load is the overlay that was persisted. *)
Theorem persist_then_initial_round_trip :
  forall (JSON_parse : string -> outcome json)
         (JSON_stringify : json -> string) (app : App) (current : json),
    accessible (localStorage app) = true ->
    truthy current = true -> typeof current = "object" ->
    ownProperties current = availability app ->
    readsBack JSON_parse JSON_stringify current ->
    initialAvailability JSON_parse
      (localStorage (persistAvailability JSON_stringify current app))
    = availability app.
Proof.
  intros JSON_parse JSON_stringify app current A T Ty O [Hne P].
  unfold initialAvailability, persistAvailability, withLocalStorage,
    getItem, setItem.
  cbn [localStorage]. rewrite A. simpl. rewrite lookup_insert_eq. simpl.
  destruct (Js.truthy_string _) eqn:Tr; [|by apply truthy_string_false in Tr].
  simpl. rewrite P. simpl. by rewrite T, Ty.
Qed.

(** When the browser refuses the storage, persisting changes nothing and
    the next startup begins with the empty overlay. *)
Theorem persist_without_storage :
  forall (JSON_parse : string -> outcome json)
         (JSON_stringify : json -> string) (current : json) (app : App),
    accessible (localStorage app) = false ->
    persistAvailability JSON_stringify current app = app /\
    initialAvailability JSON_parse
      (localStorage (persistAvailability JSON_stringify current app)) = ∅.
Proof.
  intros JSON_parse JSON_stringify current app A.
  unfold initialAvailability, persistAvailability, withLocalStorage,
    getItem, setItem.
  cbn [localStorage]. rewrite A. simpl. rewrite A. split; [by destruct app|done].
Qed.

(** ** More on the availability store *)

(** Updates of two different items commute: the overlay does not depend on
    the order in which the owner toggles them. *)
Theorem setItemAvailable_commutes :
  forall (availability : gmap string json) (i j : string) (a b : bool),
    i <> j ->
    setItemAvailable i a (setItemAvailable j b availability)
    = setItemAvailable j b (setItemAvailable i a availability).
Proof.
  intros availability i j a b Hne. apply map_eq. intros k.
  destruct (decide (k = i)) as [->|Hi]; [|destruct (decide (k = j)) as [->|Hj]].
  - rewrite (setItemAvailable_lookup_ne j b _ i Hne).
    rewrite !setItemAvailable_lookup_eq.
    by rewrite (setItemAvailable_lookup_ne j b _ i Hne).
  - rewrite (setItemAvailable_lookup_ne i a _ j Hi).
    rewrite !setItemAvailable_lookup_eq.
    by rewrite (setItemAvailable_lookup_ne i a _ j Hi).
  - by rewrite !setItemAvailable_lookup_ne.
Qed.

(** Cold Coffee is marked unavailable and Hot Coffee available, in both
    orders. *)
Lemma setItemAvailable_commutes_witness :
  setItemAvailable "cold-coffee" false
    (setItemAvailable "hot-coffee" true {[ "hot-coffee" := JBool false ]})
  = setItemAvailable "hot-coffee" true
      (setItemAvailable "cold-coffee" false {[ "hot-coffee" := JBool false ]}).
Proof.
  apply (setItemAvailable_commutes {[ "hot-coffee" := JBool false ]}
           "cold-coffee" "hot-coffee" false true).
  discriminate.
Defined.

(** The overlay stores unavailable overrides only: when every entry is the
    literal [false], it stays so after any update and after a reset, and
    an item is then available exactly when the overlay has no entry for
    it. *)
Theorem onlyFalse_invariant :
  forall (availability : gmap string json),
    onlyFalse availability ->
    (forall id b, onlyFalse (setItemAvailable id b availability)) /\
    onlyFalse resetAvailability /\
    (forall id, isAvailable availability id = true <->
                availability !! id = None).
Proof.
  intros availability H. split; [|split].
  - intros id b k x. destruct (decide (k = id)) as [->|Hne].
    + rewrite setItemAvailable_lookup_eq. destruct b; [done|].
      destruct (String.eqb id "__proto__"); [|by intros [= <-]].
      destruct (availability !! id); [by intros [= <-]|done].
    + rewrite setItemAvailable_lookup_ne by done. apply H.
  - intros k x. unfold resetAvailability. by rewrite lookup_empty.
  - intros id. unfold isAvailable.
    destruct (availability !! id) as [x|] eqn:E; [|done].
    rewrite (H id x E). split; done.
Qed.

(** From the empty overlay. *)
Lemma onlyFalse_invariant_witness :
  onlyFalse (setItemAvailable "cold-coffee" false ∅) /\
  onlyFalse resetAvailability /\
  (isAvailable ∅ "cold-coffee" = true <->
   (∅ : gmap string json) !! "cold-coffee" = None).
Proof.
  assert (H : onlyFalse ∅) by (intros k x; by rewrite lookup_empty).
  destruct (onlyFalse_invariant ∅ H) as [U [R A]].
  split; [apply U|]. split; [exact R|]. apply A.
Defined.

(** After a reset, the availability stage drops no item, for any viewer. *)
Theorem reset_shows_every_item :
  forall (MENU : list MenuSection) (app : App),
    menuItems
      (menuByAvailability MENU (setAvailability (fun _ => resetAvailability) app))
    = menuItems MENU.
Proof.
  intros MENU app. unfold menuByAvailability.
  destruct (includeUnavailable _); [done|].
  fold (stageBy
          (fun it =>
             isAvailable
               (availability (setAvailability (fun _ => resetAvailability) app))
               (MenuItem.id it)) MENU).
  rewrite menuItems_stageBy. apply List_filter_all. intros it _.
  reflexivity.
Qed.

(** ** More on phone numbers *)

Lemma remove_non_digits_idem (s : string) :
  Js.remove_non_digits (Js.remove_non_digits s) = Js.remove_non_digits s.
Proof. apply remove_non_digits_id, remove_non_digits_all_digits. Qed.

Lemma remove_non_digits_app (a b : string) :
  Js.remove_non_digits (a +:+ b)
  = Js.remove_non_digits a +:+ Js.remove_non_digits b.
Proof.
  induction a as [|c a IH]; sapp; [done|]. simpl.
  destruct (Js.is_digit c); sapp; by rewrite IH.
Qed.

(** Only the digits of the input count: characters that are not digits,
    wherever they stand, do not change the result. *)
Theorem normalizeIndianMobile_ignores_non_digits :
  forall (input : string),
    normalizeIndianMobile (Js.remove_non_digits input)
    = normalizeIndianMobile input /\
    forall a b c,
      input = a +:+ String c b -> Js.is_digit c = false ->
      normalizeIndianMobile (a +:+ b) = normalizeIndianMobile input.
Proof.
  intros input. split.
  - unfold normalizeIndianMobile. by rewrite remove_non_digits_idem.
  - intros a b c -> Hc. unfold normalizeIndianMobile.
    rewrite !remove_non_digits_app. simpl. by rewrite Hc.
Qed.

Lemma all_digits_of_Some (input r : string) :
  normalizeIndianMobile input = Some r -> all_chars Js.is_digit r = true.
Proof.
  intros H. pose proof (remove_non_digits_all_digits input) as D.
  apply normalizeIndianMobile_Some in H as [_ [E|[E|E]]]; rewrite E in D.
  - done.
  - sapp. simpl in D. done.
  - sapp. simpl in D. done.
Qed.

(** A normalised number is stable: it is ten digits, normalises to itself,
    and is what its two prefixed forms normalise to. *)
Theorem normalizeIndianMobile_stable :
  forall (input r : string),
    normalizeIndianMobile input = Some r ->
    String.length r = 10%nat /\
    all_chars Js.is_digit r = true /\
    normalizeIndianMobile r = Some r /\
    normalizeIndianMobile ("+91" +:+ r) = Some r /\
    normalizeIndianMobile ("0" +:+ r) = Some r.
Proof.
  intros input r H.
  pose proof (normalizeIndianMobile_length _ _ H) as L.
  pose proof (all_digits_of_Some _ _ H) as D.
  pose proof (remove_non_digits_id r D) as I.
  repeat split; [done..| | |]; apply normalizeIndianMobile_Some;
    (split; [done|]).
  - by left.
  - right; left. rewrite remove_non_digits_app. by rewrite I.
  - right; right. rewrite remove_non_digits_app. by rewrite I.
Qed.

(** The number typed with the country code in brackets and blanks. *)
Lemma normalizeIndianMobile_stable_witness :
  String.length "9876543210" = 10%nat /\
  all_chars Js.is_digit "9876543210" = true /\
  normalizeIndianMobile "9876543210" = Some "9876543210" /\
  normalizeIndianMobile ("+91" +:+ "9876543210") = Some "9876543210" /\
  normalizeIndianMobile ("0" +:+ "9876543210") = Some "9876543210".
Proof.
  apply (normalizeIndianMobile_stable "(+91) 98765 43210" "9876543210").
  reflexivity.
Defined.

(** Every number of the allow-list can log in, written bare, with the
    country code or with a leading zero, and with separators. *)
Theorem allow_list_numbers_log_in :
  Forall
    (fun m =>
       submit m = onLogin m /\
       submit ("+91 " +:+ m) = onLogin m /\
       submit ("0" +:+ m) = onLogin m /\
       String.length m = 10%nat /\ all_chars Js.is_digit m = true)
    OWNER_MOBILES.
Proof. repeat constructor. Qed.

(** The stale session of 9999999999 is dropped. *)
Lemma restoreOwnerSession_discards_stale_witness :
  ownerMobile (restoreOwnerSession parseSample staleApp) = ownerMobile staleApp /\
  entries (localStorage (restoreOwnerSession parseSample staleApp))
    !! OWNER_SESSION_KEY = None.
Proof.
  apply (restoreOwnerSession_discards_stale parseSample staleApp
           (sessionText "9999999999")
           (JObj {[ "mobile" := JStr "9999999999" ]}) "9999999999");
    try reflexivity; try discriminate.
  apply (bool_decide_eq_false_1 _). reflexivity.
Defined.

(** 9110162059 logs in, the page reloads, and the session is back. *)
Lemma login_then_restore_round_trip_witness :
  ownerMobile
    (restoreOwnerSession parseSample
       (setOwnerMobile None
          (ownerLogin stringifySample "9110162059" (initialApp ∅ emptyStorage))))
  = Some "9110162059".
Proof.
  apply (login_then_restore_round_trip parseSample stringifySample
           (initialApp ∅ emptyStorage) "9110162059").
  - apply (bool_decide_eq_true_1 _). reflexivity.
  - reflexivity.
  - split; [discriminate | reflexivity].
Defined.

(** The overlay that marks Cold Coffee unavailable is persisted to a
    storage that held nothing, and loaded again; so is the array that a
    stored text brought in, which is written back as an array. *)
Lemma persist_then_initial_round_trip_witness :
  initialAvailability parseOverlaySample (localStorage coffeeApp) = ∅ /\
  entries
    (localStorage
       (persistAvailability stringifyOverlaySample (JObj coffeeOverlay) coffeeApp))
    !! AVAILABILITY_KEY = Some coffeeText /\
  initialAvailability parseOverlaySample
    (localStorage
       (persistAvailability stringifyOverlaySample (JObj coffeeOverlay) coffeeApp))
  = coffeeOverlay /\
  entries
    (localStorage
       (persistAvailability stringifyOverlaySample (JArr [JBool false])
          arrayApp))
    !! AVAILABILITY_KEY = Some storedArray /\
  initialAvailability parseOverlaySample
    (localStorage
       (persistAvailability stringifyOverlaySample (JArr [JBool false])
          arrayApp))
  = {[ "0" := JBool false ]}.
Proof.
  split; [reflexivity|]. split; [reflexivity|]. split; [|split; [reflexivity|]].
  - change (initialAvailability parseOverlaySample
              (localStorage
                 (persistAvailability stringifyOverlaySample
                    (JObj coffeeOverlay) coffeeApp))
            = availability coffeeApp).
    apply (persist_then_initial_round_trip parseOverlaySample
             stringifyOverlaySample coffeeApp (JObj coffeeOverlay));
      try reflexivity.
    split; [discriminate | reflexivity].
  - change (initialAvailability parseOverlaySample
              (localStorage
                 (persistAvailability stringifyOverlaySample
                    (JArr [JBool false]) arrayApp))
            = availability arrayApp).
    apply (persist_then_initial_round_trip parseOverlaySample
             stringifyOverlaySample arrayApp (JArr [JBool false]));
      try reflexivity.
    split; [discriminate | reflexivity].
Defined.

(** A browser that refuses the storage. *)
Lemma persist_without_storage_witness :
  persistAvailability stringifyOverlaySample (JObj coffeeOverlay)
    (initialApp coffeeOverlay blockedStorage)
  = initialApp coffeeOverlay blockedStorage /\
  initialAvailability parseOverlaySample
    (localStorage
       (persistAvailability stringifyOverlaySample (JObj coffeeOverlay)
          (initialApp coffeeOverlay blockedStorage)))
  = ∅.
Proof.
  apply (persist_without_storage parseOverlaySample stringifyOverlaySample
           (JObj coffeeOverlay) (initialApp coffeeOverlay blockedStorage)).
  reflexivity.
Defined.

(** ** More on variant labels *)

Lemma last_ok_app_nonempty (x : string) (c : ascii) (y : string) :
  last_ok (x +:+ String c y) = last_ok (String c y).
Proof.
  induction x as [|d x IH]; sapp; [done|].
  destruct x as [|e x]; sapp; [done|]. exact IH.
Qed.

Lemma digit_not_token_head (d : ascii) :
  Js.is_digit d = true ->
  Ascii.eqb (Js.canonicalize d) (Js.canonicalize "r") = false /\
  Ascii.eqb (Js.canonicalize d) (Js.canonicalize "m") = false /\
  Ascii.eqb (Js.canonicalize d) (Js.canonicalize "l") = false /\
  Js.is_space d = false.
Proof. by_ascii d. Qed.

Lemma normalizeVariantName_inches_fixed (ds : string) :
  ds <> EmptyString -> all_chars Js.is_digit ds = true ->
  normalizeVariantName (ds +:+ " inches") = ds +:+ " inches" /\
  Js.trim (ds +:+ " inches") = ds +:+ " inches".
Proof.
  intros Hne D. destruct ds as [|d ds]; [done|].
  assert (Hd : Js.is_digit d = true) by (simpl in D; by destruct (Js.is_digit d)).
  destruct (digit_not_token_head d Hd) as [HR [HM [HL Hs]]].
  assert (T : Js.trim (String d ds +:+ " inches") = String d ds +:+ " inches").
  { apply trim_id; [sapp; simpl; by rewrite Hs|].
    by rewrite last_ok_app_nonempty. }
  split; [|exact T]. unfold normalizeVariantName. rewrite T.
  assert (M : match_inches (String d ds +:+ " inches") = None).
  { unfold match_inches.
    rewrite trimStart_id by (sapp; simpl; by rewrite Hs).
    by rewrite span_digits_app. }
  rewrite M. unfold Js.test_whole_ci. sapp. simpl.
  by rewrite HR, HM, HL.
Qed.

(** Normalising a label twice is normalising it once, and a normalised
    label has no white space at either end. *)
Theorem normalizeVariantName_idempotent :
  forall (name : string),
    normalizeVariantName (normalizeVariantName name)
    = normalizeVariantName name /\
    Js.trim (normalizeVariantName name) = normalizeVariantName name.
Proof.
  intros name.
  pose proof (trim_head_ok name) as H. pose proof (trim_last_ok name) as L.
  assert (E : normalizeVariantName name
              = match match_inches (Js.trim name) with
                | Some inches => inches +:+ " inches"
                | None =>
                    if Js.test_whole_ci "reg" (Js.trim name) then "Regular"
                    else if Js.test_whole_ci "med" (Js.trim name) then "Medium"
                    else if Js.test_whole_ci "large" (Js.trim name) then "Large"
                    else Js.trim name
                end) by reflexivity.
  set (n := Js.trim name) in *.
  destruct (match_inches n) as [ds|] eqn:M.
  - apply (match_inches_Some _ _ H L) in M as [ws [_ [Hne [D _]]]].
    rewrite E. by apply normalizeVariantName_inches_fixed.
  - destruct (Js.test_whole_ci "reg" n) eqn:R; [by rewrite E|].
    destruct (Js.test_whole_ci "med" n) eqn:Md; [by rewrite E|].
    destruct (Js.test_whole_ci "large" n) eqn:Lg; [by rewrite E|].
    pose proof (trim_id n H L) as T. rewrite E. split; [|exact T].
    unfold normalizeVariantName. by rewrite T, M, R, Md, Lg.
Qed.

(** ** The item card *)

(** A customer's card shows the price of every variant once, in order.
    An owner's card shows the same, except that it shows no price at all
    for an item whose single variant is labelled regular or reg: the
    toggle button takes the place of its price. *)
Theorem priceCells_prices :
  forall (item : MenuItem),
    List.map cellPrice (priceCells item false)
    = List.map Variant.price (MenuItem.variants item) /\
    List.map cellPrice (priceCells item true)
    = match MenuItem.variants item with
      | [only] =>
          if isRegularLabel (Js.trim (Variant.name only)) then []
          else [Variant.price only]
      | vs => List.map Variant.price vs
      end.
Proof.
  intros item. unfold priceCells, hasMany, showSingleVariantRow.
  destruct (MenuItem.variants item) as [|v [|w vs]]; simpl.
  - done.
  - rewrite orb_false_r.
    by destruct (isRegularLabel (Js.trim (Variant.name v))).
  - rewrite app_nil_r, List.map_map. simpl. by split.
Qed.

Example priceCells_sample :
  priceCells (MenuItem.mk "cold-coffee" "Cold Coffee" true
                [ Variant.mk "reg" "Regular" 90 ]) false
  = [PricePill 90] /\
  priceCells (MenuItem.mk "cold-coffee" "Cold Coffee" true
                [ Variant.mk "reg" "Regular" 90 ]) true
  = [] /\
  priceCells (MenuItem.mk "soft-drink-300" "Soft Drink (300ml)" true
                [ Variant.mk "reg" "300ml" 27 ]) true
  = [VariantRow "300ml" 27] /\
  priceCells (MenuItem.mk "french-fries" "French Fries" true
                [ Variant.mk "reg" "Reg" 55; Variant.mk "med" "Med" 90 ]) true
  = [VariantCard "Regular" 55; VariantCard "Medium" 90].
Proof. repeat split. Qed.

(** ** The file name of the export *)

Lemma alnum_not_dash (c : ascii) :
  is_lower_alnum c = true ->
  Ascii.eqb c dash = false /\ Js.lower_char c = c.
Proof. by_ascii c. Qed.

Lemma dashes_single_weaken (s : string) :
  dashes_single true s = true -> dashes_single false s = true.
Proof.
  destruct s as [|c s]; simpl; [done|].
  destruct (is_lower_alnum c); [done|]. by rewrite andb_false_r.
Qed.

Lemma dashes_single_head (s : string) :
  dashes_single true s = true -> head_not_dash s = true.
Proof.
  destruct s as [|c s]; simpl; [done|].
  destruct (is_lower_alnum c) eqn:A.
  - intros _. by rewrite (proj1 (alnum_not_dash c A)).
  - by rewrite andb_false_r.
Qed.

Lemma replace_runs_single (b : bool) (s : string) :
  dashes_single b (replace_runs b s) = true.
Proof.
  revert b. induction s as [|c s IH]; intros b; simpl; [done|].
  destruct (is_lower_alnum c) eqn:A; simpl.
  - by rewrite A.
  - destruct b; [apply IH|]. simpl. apply IH.
Qed.

Lemma drop_last_dash_clean (b : bool) (u : string) :
  dashes_single b u = true -> (u = EmptyString -> b = false) ->
  clean_from b (drop_last_dash u) = true.
Proof.
  revert b. induction u as [|c u IH]; intros b W E.
  - by rewrite E.
  - destruct u as [|d r].
    + simpl in *. destruct (is_lower_alnum c) eqn:A.
      * rewrite (proj1 (alnum_not_dash c A)). simpl. by rewrite A.
      * apply andb_true_iff in W as [[Hc Hb]%andb_true_iff _].
        rewrite Hc. simpl. by destruct b.
    + change (drop_last_dash (String c (String d r)))
        with (String c (drop_last_dash (String d r))).
      simpl in W |- *. destruct (is_lower_alnum c).
      * by apply IH.
      * apply andb_true_iff in W as [-> W]. simpl. by apply IH.
Qed.

Lemma drop_last_dash_head (u : string) :
  head_not_dash u = true -> head_not_dash (drop_last_dash u) = true.
Proof.
  destruct u as [|c [|d r]]; simpl; try done.
  destruct (Ascii.eqb c dash) eqn:E; [done|]. simpl. by rewrite E.
Qed.

Lemma clean_from_lower (b : bool) (s : string) :
  clean_from b s = true -> Js.toLowerCase s = s.
Proof.
  revert b. induction s as [|c s IH]; intros b; simpl; [done|].
  destruct (is_lower_alnum c) eqn:A.
  - intros H. by rewrite (proj2 (alnum_not_dash c A)), (IH _ H).
  - intros [[Hc _]%andb_true_iff H]%andb_true_iff.
    apply Ascii.eqb_eq in Hc as ->. by rewrite (IH _ H).
Qed.

Lemma clean_from_replace_runs (b : bool) (s : string) :
  clean_from b s = true -> replace_runs b s = s.
Proof.
  revert b. induction s as [|c s IH]; intros b; simpl; [done|].
  destruct (is_lower_alnum c).
  - intros H. by rewrite (IH _ H).
  - intros [[Hc Hb]%andb_true_iff H]%andb_true_iff.
    apply Ascii.eqb_eq in Hc as ->. destruct b; [done|].
    by rewrite (IH _ H).
Qed.

Lemma clean_from_drop_last (b : bool) (s : string) :
  clean_from b s = true -> drop_last_dash s = s.
Proof.
  revert b. induction s as [|c s IH]; intros b; [done|].
  destruct s as [|d r].
  - simpl. destruct (is_lower_alnum c) eqn:A.
    + intros _. by rewrite (proj1 (alnum_not_dash c A)).
    + by rewrite andb_false_r.
  - change (drop_last_dash (String c (String d r)))
      with (String c (drop_last_dash (String d r))).
    intros H. simpl in H. destruct (is_lower_alnum c).
    + by rewrite (IH false H).
    + apply andb_true_iff in H as [_ H]. by rewrite (IH true H).
Qed.

(** A sanitised name is made of lower-case letters, digits and single
    dashes, with no dash at either end; such a name is left as it is, so
    sanitising is idempotent. *)
Theorem sanitizeFilename_clean :
  forall (s : string),
    cleanName (sanitizeFilename s) = true /\
    (cleanName s = true -> sanitizeFilename s = s) /\
    sanitizeFilename (sanitizeFilename s) = sanitizeFilename s.
Proof.
  assert (C : forall s, cleanName (sanitizeFilename s) = true).
  { intros s. unfold sanitizeFilename, strip_edge_dashes.
    set (t := replace_runs false (Js.toLowerCase s)).
    pose proof (replace_runs_single false (Js.toLowerCase s)) as W.
    fold t in W.
    assert (U : dashes_single false (drop_first_dash t) = true /\
                head_not_dash (drop_first_dash t) = true).
    { destruct t as [|c t']; [done|]. simpl in W |- *.
      destruct (is_lower_alnum c) eqn:A.
      - rewrite (proj1 (alnum_not_dash c A)). simpl. rewrite A.
        by rewrite (proj1 (alnum_not_dash c A)).
      - apply andb_true_iff in W as [[Hc _]%andb_true_iff W]. rewrite Hc.
        split; [by apply dashes_single_weaken|by apply dashes_single_head]. }
    destruct U as [U Hh].
    pose proof (drop_last_dash_clean false _ U (fun _ => eq_refl)) as K.
    pose proof (drop_last_dash_head _ Hh) as Hh'.
    unfold cleanName.
    destruct (drop_last_dash (drop_first_dash t)) as [|c r]; [done|].
    simpl in Hh'. by rewrite Hh', K. }
  assert (F : forall s, cleanName s = true -> sanitizeFilename s = s).
  { intros s H. unfold sanitizeFilename, strip_edge_dashes.
    destruct s as [|c r]; [done|]. unfold cleanName in H.
    apply andb_true_iff in H as [Hc H].
    rewrite (clean_from_lower _ _ H), (clean_from_replace_runs _ _ H).
    unfold drop_first_dash. apply negb_true_iff in Hc. rewrite Hc.
    by apply (clean_from_drop_last false). }
  intros s. split; [apply C|]. split; [apply F|]. apply F, C.
Qed.

Example sanitizeFilename_samples :
  sanitizeFilename "lollyzz" = "lollyzz" /\
  sanitizeFilename "  Lollyzz -- QR Menu! " = "lollyzz-qr-menu" /\
  sanitizeFilename "--" = EmptyString /\
  sanitizeFilename "a_b" = "a-b".
Proof. repeat split. Qed.

(** ** The masked number *)

(** A text whose length is not ten is shown as it is.  The mask hides the
    middle of a ten-character number: it is shown as its first two and last
    two characters around the bullets, so two numbers with the same first
    two and last two characters are shown alike. *)
Theorem maskMobile_hides_middle :
  forall (bullets : string),
    (forall m, String.length m <> 10%nat -> maskMobile bullets m = m) /\
    (forall a mid mid' z,
       String.length a = 2%nat -> String.length z = 2%nat ->
       String.length mid = 6%nat -> String.length mid' = 6%nat ->
       maskMobile bullets (a +:+ mid +:+ z) = a +:+ bullets +:+ z /\
       maskMobile bullets (a +:+ mid' +:+ z)
       = maskMobile bullets (a +:+ mid +:+ z)) /\
    (forall m, String.length m = 10%nat ->
       maskMobile bullets m
       = String.substring 0 2 m +:+ bullets +:+ Js.slice m 8).
Proof.
  intros bullets. split; [|split].
  - intros m L. unfold maskMobile.
    by destruct (Nat.eqb_spec (String.length m) 10).
  - intros a mid mid' z La Lz Lm Lm'.
    assert (M : forall x, String.length x = 6%nat ->
                          maskMobile bullets (a +:+ x +:+ z)
                          = a +:+ bullets +:+ z).
    { intros x Lx. unfold maskMobile.
      rewrite !string_length_app, La, Lx, Lz. simpl.
      destruct a as [|a1 [|a2 [|? ?]]]; try discriminate.
      destruct x as [|x1 [|x2 [|x3 [|x4 [|x5 [|x6 [|? ?]]]]]]]; try discriminate.
      sapp. simpl. by destruct z. }
    split; [by apply M|by rewrite !M].
  - intros m L. unfold maskMobile. by rewrite L.
Qed.

(** Two numbers that differ in the middle only, and two texts that are not
    ten characters long, with asterisks standing for the bullets. *)
Lemma maskMobile_hides_middle_witness :
  maskMobile "******" "12345" = "12345" /\
  maskMobile "******" "91101620599" = "91101620599" /\
  maskMobile "******" ("91" +:+ "101620" +:+ "59") = "91" +:+ "******" +:+ "59" /\
  maskMobile "******" ("91" +:+ "708202" +:+ "59")
  = maskMobile "******" ("91" +:+ "101620" +:+ "59").
Proof.
  destruct (maskMobile_hides_middle "******") as [U [H _]].
  split; [apply U; discriminate|]. split; [apply U; discriminate|].
  apply (H "91" "101620" "708202" "59"); reflexivity.
Defined.
